(** * golemapp: the bootstrap of the Golem node, embedded and verified

    The development follows [golemapp.py]: the logger-class guard installed
    at import time, the click option table of [start], the body of [start]
    with its three terminal actions, [delete_reactor],
    [start_crossbar_worker] and the two diagnostics reporters.

    Python state that the bootstrap touches is threaded explicitly through
    a [World]: the module registry [sys.modules], the argument vector
    [sys.argv], the default logger class of [logging], the constant
    [PROTOCOL_CONST.ID], and the sequence of calls made so far to
    collaborators that live outside the file.  Collaborators are read from
    an environment record [Env]: a call to one is recorded with what it
    returned, and [importlib.import_module] also registers the module it
    returns under its name.  What else a collaborator does to the
    interpreter is outside the model, and so are the [import] statements
    inside function bodies (lines 126, 159, 166 and 167), which bind
    modules the file has loaded already or that its collaborators load;
    the statements proved about the registry are therefore about single
    entries and about the three assignments of lines 109-111, never about
    the whole registry after a collaborator has run. *)

From Stdlib Require Import ZArith.
From stdpp Require Import gmap strings list fin_maps.

Open Scope string_scope.
Open Scope list_scope.

(** ** Values *)

(** [SocketAddress] objects as the option callbacks hand them to [start]:
    the body reads the attributes [address] and [port]. *)
Record SocketAddress := mkSocketAddress { address : string; port : Z }.

Inductive PyVal :=
| VNone
| VBool (b : bool)
| VInt (z : Z)
| VStr (s : string)
| VStrs (l : list string)
| VAddr (a : SocketAddress)
| VAddrs (l : list SocketAddress).

(** A module object held by [sys.modules] or returned by
    [importlib.import_module]. *)
Inductive PyModule := Module (name : string).

(** Attribute dictionaries of [AppConfig] and [ClientConfigDescriptor]
    instances: attribute name to value. *)
Abbreviation AppConfig := (gmap string PyVal).
Abbreviation ConfigDesc := (gmap string PyVal).

(** The default logger class registered in [logging]. *)
Inductive LoggerClass := StdLogger | SLogger | CustomLogger (name : string).

(** ** Exceptions and results *)

Inductive Exn :=
| ValueError
| IndexError
| TypeError
| ImportError (name : string)
| ConfigLoadError
| UsageError (msg : string).

Inductive Res (A : Type) :=
| Ok (a : A)
| Raise (e : Exn).
Arguments Ok {A} a.
Arguments Raise {A} e.

(** ** The option table of [start] (lines 43-98) *)

Inductive Param :=
| P_payments | P_monitor | P_datadir | P_protocol_id | P_node_address
| P_rpc_address | P_peer | P_start_geth | P_start_geth_port | P_geth_address
| P_version | P_m | P_node | P_klass | P_u | P_multiprocessing_fork
| P_cbdir | P_worker | P_type | P_realm | P_loglevel | P_title.

#[global] Instance Param_eq_dec : EqDecision Param.
Proof. solve_decision. Defined.

(** ** Calls observed by the world *)

(** The keyword arguments of the [Node] constructor (lines 132-140). *)
Record NodeArgs := mkNodeArgs {
  n_datadir : string;
  n_config_desc : ConfigDesc;
  n_transaction_system : bool;
  n_peers : list SocketAddress;
  n_use_monitor : bool;
  n_start_geth : bool;
  n_start_geth_port : option Z;
  n_geth_address : PyVal
}.

Inductive Event :=
| EFreezeSupport                         (* freeze_support() *)
| EPrint (line : string)                 (* print(...) *)
| ENewConfigDesc                         (* ClientConfigDescriptor() *)
| ELoadConfig (datadir : string)         (* AppConfig.load_config(datadir) *)
| EInitFromAppConfig                     (* config_desc.init_from_app_config(..) *)
| EStartCrossbarWorker (module : string) (* start_crossbar_worker(m) *)
| EImportModule (name : string)          (* importlib.import_module(name) *)
| ERun (module : PyModule)               (* module.run() *)
| EConfigLogging (datadir : string) (loglevel : option string)
| EInstallReactor                        (* install_reactor() *)
| ELogInfo (fmt : string) (args : list PyVal)    (* logger.info(fmt, *args) *)
| ENode (kw : NodeArgs)                  (* Node(...) *)
| ENodeStart                             (* node.start() *)
| ECallback (p : Param) (id_seen : Z).   (* an option callback is entered
                                            while PROTOCOL_CONST.ID = id_seen *)

(** ** The interpreter state *)

Record World := mkWorld {
  sys_modules : gmap string (option PyModule);  (* [Some None]: the entry None *)
  sys_argv : list string;
  logger_class : LoggerClass;                   (* logging.getLoggerClass() *)
  protocol_id : Z;                              (* PROTOCOL_CONST.ID *)
  trace : list Event
}.

Definition set_modules (f : gmap string (option PyModule) → gmap string (option PyModule))
    (w : World) : World :=
  mkWorld (f (sys_modules w)) (sys_argv w) (logger_class w) (protocol_id w) (trace w).

Definition set_argv (l : list string) (w : World) : World :=
  mkWorld (sys_modules w) l (logger_class w) (protocol_id w) (trace w).

Definition setLoggerClass (c : LoggerClass) (w : World) : World :=
  mkWorld (sys_modules w) (sys_argv w) c (protocol_id w) (trace w).

Definition getLoggerClass (w : World) : LoggerClass := logger_class w.

Definition set_protocol_id (z : Z) (w : World) : World :=
  mkWorld (sys_modules w) (sys_argv w) (logger_class w) z (trace w).

Definition record (e : Event) (w : World) : World :=
  mkWorld (sys_modules w) (sys_argv w) (logger_class w) (protocol_id w)
          (trace w ++ [e]).

(** ** A state and exception monad for statement sequences *)

Definition M (A : Type) : Type := World → Res A * World.

Definition ret {A} (a : A) : M A := fun w => (Ok a, w).

Definition raise {A} (e : Exn) : M A := fun w => (Raise e, w).

Definition bind {A B} (m : M A) (k : A → M B) : M B :=
  fun w => match m w with
           | (Ok a, w') => k a w'
           | (Raise e, w') => (Raise e, w')
           end.

Definition call (e : Event) : M unit := fun w => (Ok tt, record e w).

Definition modify (f : World → World) : M unit := fun w => (Ok tt, f w).

Definition gets {A} (f : World → A) : M A := fun w => (Ok (f w), w).

Definition from_option {A} (e : Exn) (o : option A) : M A :=
  match o with Some a => ret a | None => raise e end.

Declare Scope py_scope.
Delimit Scope py_scope with py.
Notation "'let*' x ':=' m 'in' k" := (bind m (fun x => k))
  (at level 10, x name, m at level 100, k at level 200) : py_scope.
Notation "m '>>>' k" := (bind m (fun _ => k))
  (at level 100, k at level 200, right associativity) : py_scope.
Open Scope py_scope.

(** Python truth values of the two option values [start] tests. *)
Definition truthy_str (o : option string) : bool :=
  match o with
  | None => false
  | Some s => negb (bool_decide (s = ""))
  end.

(** ** Collaborators

    Everything [golemapp.py] imports and calls but does not define.  A
    collaborator that the bootstrap can see failing returns [None] where it
    raises: [AppConfig.load_config] on a corrupt or unreadable store,
    [importlib.import_module] on a module that cannot be resolved, the
    click type conversions and the [argsparser] callbacks on a value they
    reject. *)
Record Env := mkEnv {
  golem_version : string;                          (* golem.__version__ *)
  golem_messages_version : string;                 (* golem_messages.__version__ *)
  load_config : string → option AppConfig;         (* AppConfig.load_config *)
  new_config_desc : ConfigDesc;                    (* ClientConfigDescriptor() *)
  init_from_app_config : ConfigDesc → AppConfig → ConfigDesc;
  import_module : string → option PyModule;        (* importlib.import_module *)
  platform_system : string;
  platform_release : string;
  platform_version : string;
  platform_machine : string;
  cpu_vendor_id : PyVal;                           (* get_cpu_info()['vendor_id'] *)
  cpu_brand : PyVal;
  cpu_count : PyVal;
  mem_total : Z;                                   (* psutil.virtual_memory().total *)
  swap_total : Z;                                  (* psutil.swap_memory().total *)
  naturalsize : Z → string;                        (* humanize.naturalsize(_, binary=True) *)
  default_datadir : string;                        (* get_local_datadir('default') *)
  convert_int : string → option Z;                 (* click.INT *)
  convert_path : string → option string;           (* click.Path(file_okay=False, writable=True) *)
  parse_node_addr : Z → PyVal → option PyVal;      (* argsparser callbacks, given *)
  parse_rpc_address : Z → PyVal → option PyVal;    (* PROTOCOL_CONST.ID and the value *)
  parse_peer : Z → PyVal → option PyVal;
  parse_http_addr : Z → PyVal → option PyVal
}.

(** ** The logger-class guard (lines 29-39) *)

Section LoggerClassGuard.
(** [slogging.SManager.getLogger] as it was before the patch: any
    computation over the world, in particular one that calls
    [logging.setLoggerClass]; it returns a logger or raises. *)
Variable Logger : Type.
Variable orig_getLogger : list PyVal → M Logger.

Definition monkey_patched_getLogger (args : list PyVal) : M Logger :=
  let* orig_class := gets getLoggerClass in
  let* result := orig_getLogger args in
  modify (setLoggerClass orig_class) >>>
  ret result.
End LoggerClassGuard.

(** ** List operations of [sys.argv] *)

(** [l.index(x)]: position of the first occurrence, [None] for ValueError. *)
Fixpoint list_index (x : string) (l : list string) : option nat :=
  match l with
  | [] => None
  | y :: l' => if decide (y = x) then Some 0%nat else S <$> list_index x l'
  end.

(** [l.pop(i)] for [0 <= i]: the element and the shortened list, [None] for
    IndexError. *)
Definition list_pop (i : nat) (l : list string) : option (string * list string) :=
  match l !! i with
  | Some x => Some (x, delete i l)
  | None => None
  end.

(** [l.remove(x)]: drops the first occurrence, [None] for ValueError. *)
Fixpoint list_remove (x : string) (l : list string) : option (list string) :=
  match l with
  | [] => None
  | y :: l' => if decide (y = x) then Some l' else cons y <$> list_remove x l'
  end.

Definition argv_pop (idx : nat) : M string :=
  let* argv := gets sys_argv in
  match list_pop idx argv with
  | Some (x, argv') => modify (set_argv argv') >>> ret x
  | None => raise IndexError
  end.

Definition argv_remove (x : string) : M unit :=
  let* argv := gets sys_argv in
  match list_remove x argv with
  | Some argv' => modify (set_argv argv')
  | None => raise ValueError
  end.

(** ** The arguments of [start] (line 99) *)

Record StartArgs := mkStartArgs {
  a_payments : bool;
  a_monitor : bool;
  a_datadir : string;
  a_node_address : option string;
  a_rpc_address : option SocketAddress;
  a_peer : list SocketAddress;
  a_start_geth : bool;
  a_start_geth_port : option Z;
  a_geth_address : PyVal;
  a_version : bool;
  a_m : option string;
  a_loglevel : option string
}.

Definition worker_sentinel : string := "crossbar.worker.process".
Definition reactor_module : string := "twisted.internet.reactor".

Section Bootstrap.
Variable env : Env.

(** lines 145-147 *)
Definition delete_reactor : M unit :=
  let* modules := gets sys_modules in
  if bool_decide (is_Some (modules !! reactor_module))
  then modify (set_modules (delete reactor_module))
  else ret tt.

(** [importlib.import_module(name)]: the call; the module the import system
    gives is registered under its name and returned, and there is an
    ImportError when it gives none. *)
Definition importlib_import_module (name : string) : M PyModule :=
  call (EImportModule name) >>>
  let* module := from_option (ImportError name) (import_module env name) in
  modify (set_modules (<[name := Some module]>)) >>>
  ret module.

(** lines 150-161 *)
Definition start_crossbar_worker (module : string) : M unit :=
  let* argv := gets sys_argv in
  let* idx := from_option ValueError (list_index "-m" argv) in
  argv_pop idx >>>
  argv_pop idx >>>
  let* argv := gets sys_argv in
  (if bool_decide ("-u" ∈ argv) then argv_remove "-u" else ret tt) >>>
  let* module := importlib_import_module module in
  call (ERun module).

(** lines 164-171 *)
Definition log_golem_version : M unit :=
  let* id := gets protocol_id in
  call (ELogInfo "GOLEM Version: %s" [VStr (golem_version env)]) >>>
  call (ELogInfo "Protocol Version: %s" [VInt id]) >>>
  call (ELogInfo "golem_messages Version: %s" [VStr (golem_messages_version env)]).

(** lines 174-190 *)
Definition log_platform_info : M unit :=
  call (ELogInfo "system: %s, release: %s, version: %s, machine: %s"
          [VStr (platform_system env); VStr (platform_release env);
           VStr (platform_version env); VStr (platform_machine env)]) >>>
  call (ELogInfo "cpu: %s %s, %s cores"
          [cpu_vendor_id env; cpu_brand env; cpu_count env]) >>>
  call (ELogInfo "memory: %s, swap: %s"
          [VStr (naturalsize env (mem_total env));
           VStr (naturalsize env (swap_total env))]).

(** lines 109-111 *)
Definition pyinstaller_workarounds : M unit :=
  modify (set_modules (<["win32com.gen_py.os" := None]>)) >>>
  modify (set_modules (<["win32com.gen_py.pywintypes" := None]>)) >>>
  modify (set_modules (<["win32com.gen_py.pythoncom" := None]>)).

(** lines 116-120: the two [if] statements that overwrite attributes of
    [config_desc].  [rpc_address] is [None] or a [SocketAddress] object,
    which is true as every object without [__bool__] or [__len__];
    [node_address] is [None] or a string, true when not empty. *)
Definition overlay (a : StartArgs) (config_desc : ConfigDesc) : ConfigDesc :=
  let config_desc :=
    match a_rpc_address a with
    | Some rpc_address =>
        <["rpc_port" := VInt (port rpc_address)]>
          (<["rpc_address" := VStr (address rpc_address)]> config_desc)
    | None => config_desc
    end in
  match a_node_address a with
  | Some node_address =>
      if truthy_str (Some node_address)
      then <["node_address" := VStr node_address]> config_desc
      else config_desc
  | None => config_desc
  end.

(** lines 113-120 *)
Definition resolve_config (a : StartArgs) : M ConfigDesc :=
  call ENewConfigDesc >>>
  let config_desc := new_config_desc env in
  call (ELoadConfig (a_datadir a)) >>>
  let* app_config := from_option ConfigLoadError (load_config env (a_datadir a)) in
  call EInitFromAppConfig >>>
  let config_desc := init_from_app_config env config_desc app_config in
  ret (overlay a config_desc).

(** lines 126-142: the [else] branch *)
Definition start_node (a : StartArgs) (config_desc : ConfigDesc) : M unit :=
  call (EConfigLogging (a_datadir a) (a_loglevel a)) >>>
  call EInstallReactor >>>
  log_golem_version >>>
  log_platform_info >>>
  call (ENode {| n_datadir := a_datadir a;
                 n_config_desc := config_desc;
                 n_transaction_system := a_payments a;
                 n_peers := a_peer a;
                 n_use_monitor := a_monitor a;
                 n_start_geth := a_start_geth a;
                 n_start_geth_port := a_start_geth_port a;
                 n_geth_address := a_geth_address a |}) >>>
  call ENodeStart.

(** lines 104-142: from the version check to the end of the body *)
Definition start_dispatch (a : StartArgs) : M PyVal :=
  if a_version a then
    call (EPrint ("GOLEM version: " +:+ golem_version env)) >>>
    ret (VInt 0)
  else
    pyinstaller_workarounds >>>
    let* config_desc := resolve_config a in
    let headless := start_node a config_desc >>> ret VNone in
    match a_m a with
    | Some m =>
        if bool_decide (m = worker_sentinel) then
          call (EStartCrossbarWorker m) >>>
          start_crossbar_worker m >>>
          ret VNone
        else headless
    | None => headless
    end.

(** lines 99-142 *)
Definition start (a : StartArgs) : M PyVal :=
  call EFreezeSupport >>>
  delete_reactor >>>
  start_dispatch a.
End Bootstrap.

(** ** Option parsing: the decorators of [start] as click runs them *)

(** What the command line supplies for one occurrence of an option: a
    switch, or the text that follows the option name. *)
Inductive Raw := RFlag (b : bool) | RText (s : string).

(** [is_eager=True] appears on lines 53 and 67. *)
Definition is_eager (p : Param) : bool :=
  match p with
  | P_protocol_id | P_start_geth => true
  | _ => false
  end.

(** [expose_value=False] appears on lines 54, 79-81, 83, 85-88 and 98. *)
Definition expose_value (p : Param) : bool :=
  match p with
  | P_protocol_id | P_node | P_klass | P_u | P_multiprocessing_fork
  | P_cbdir | P_worker | P_type | P_realm | P_title => false
  | _ => true
  end.

(** The keyword under which the value reaches [start]. *)
Definition param_name (p : Param) : string :=
  match p with
  | P_payments => "payments" | P_monitor => "monitor" | P_datadir => "datadir"
  | P_protocol_id => "protocol_id" | P_node_address => "node_address"
  | P_rpc_address => "rpc_address" | P_peer => "peer"
  | P_start_geth => "start_geth" | P_start_geth_port => "start_geth_port"
  | P_geth_address => "geth_address" | P_version => "version" | P_m => "m"
  | P_node => "node" | P_klass => "klass" | P_u => "u"
  | P_multiprocessing_fork => "multiprocessing_fork" | P_cbdir => "cbdir"
  | P_worker => "worker" | P_type => "type" | P_realm => "realm"
  | P_loglevel => "loglevel" | P_title => "title"
  end.

(** The decorators from top to bottom. *)
Definition declaration_order : list Param :=
  [P_payments; P_monitor; P_datadir; P_protocol_id; P_node_address;
   P_rpc_address; P_peer; P_start_geth; P_start_geth_port; P_geth_address;
   P_version; P_m; P_node; P_klass; P_u; P_multiprocessing_fork;
   P_cbdir; P_worker; P_type; P_realm; P_loglevel; P_title].

Definition loglevel_choices : list string :=
  ["CRITICAL"; "ERROR"; "WARNING"; "INFO"; "DEBUG"].

Fixpoint param_index (p : Param) (l : list Param) : option nat :=
  match l with
  | [] => None
  | q :: l' => if decide (q = p) then Some 0%nat else S <$> param_index p l'
  end.

(** Modelled from the spec: the order in which click processes the
    parameters of a command (click itself is not under src/).  Eager
    parameters come before all others; within each group a parameter
    given on the command line is placed by its first position there, and
    the parameters that were not given follow in declaration order.  This
    is a stable sort of the declaration order by the pair
    (not eager, position), an absent position counting as infinite. *)
Definition sort_key (invocation_order : list Param) (p : Param) : bool * option nat :=
  (negb (is_eager p), param_index p invocation_order).

Definition pos_le (i j : option nat) : bool :=
  match i, j with
  | Some a, Some b => bool_decide (a ≤ b)%nat
  | Some _, None => true
  | None, Some _ => false
  | None, None => true
  end.

Definition key_le (k1 k2 : bool * option nat) : bool :=
  match fst k1, fst k2 with
  | false, true => true
  | true, false => false
  | _, _ => pos_le (snd k1) (snd k2)
  end.

Fixpoint insert_by (key : Param → bool * option nat) (x : Param) (l : list Param)
    : list Param :=
  match l with
  | [] => [x]
  | y :: l' => if key_le (key x) (key y) then x :: y :: l'
               else y :: insert_by key x l'
  end.

Definition sorted_by (key : Param → bool * option nat) (l : list Param) : list Param :=
  foldr (insert_by key) [] l.

Definition iter_params_for_processing (invocation_order declaration_order : list Param)
    : list Param :=
  sorted_by (sort_key invocation_order) declaration_order.

(** The values an option was given, in command-line order. *)
Definition supplied (opts : list (Param * Raw)) (p : Param) : list Raw :=
  snd <$> filter (λ o, fst o = p) opts.

Definition bad_parameter {A} (p : Param) : Res A :=
  Raise (UsageError ("Invalid value for " +:+ param_name p)).

Definition lift_res {A} (r : Res A) : M A := fun w => (r, w).

(** The typed views [start] has of the keyword arguments. *)
Definition as_bool (v : PyVal) : option bool :=
  match v with VBool b => Some b | _ => None end.
Definition as_str (v : PyVal) : option string :=
  match v with VStr s => Some s | _ => None end.
Definition as_opt_str (v : PyVal) : option (option string) :=
  match v with VNone => Some None | VStr s => Some (Some s) | _ => None end.
Definition as_opt_int (v : PyVal) : option (option Z) :=
  match v with VNone => Some None | VInt z => Some (Some z) | _ => None end.
Definition as_opt_addr (v : PyVal) : option (option SocketAddress) :=
  match v with VNone => Some None | VAddr a => Some (Some a) | _ => None end.
Definition as_addrs (v : PyVal) : option (list SocketAddress) :=
  match v with VAddrs l => Some l | _ => None end.

(** The call of [start] with [ctx.params] as keywords: [None] when a keyword is missing or holds a value
    of a kind the body cannot use. *)
Definition kwargs_to_args (kw : gmap string PyVal) : option StartArgs :=
  payments ← kw !! "payments" ≫= as_bool;
  monitor ← kw !! "monitor" ≫= as_bool;
  datadir ← kw !! "datadir" ≫= as_str;
  node_address ← kw !! "node_address" ≫= as_opt_str;
  rpc_address ← kw !! "rpc_address" ≫= as_opt_addr;
  peer ← kw !! "peer" ≫= as_addrs;
  start_geth ← kw !! "start_geth" ≫= as_bool;
  start_geth_port ← kw !! "start_geth_port" ≫= as_opt_int;
  geth_address ← kw !! "geth_address";
  version ← kw !! "version" ≫= as_bool;
  m ← kw !! "m" ≫= as_opt_str;
  loglevel ← kw !! "loglevel" ≫= as_opt_str;
  Some (mkStartArgs payments monitor datadir node_address rpc_address peer
          start_geth start_geth_port geth_address version m loglevel).

Section Parsing.
Variable env : Env.

Definition flag_value (p : Param) (default : bool) (given : list Raw) : Res PyVal :=
  match last given with
  | None => Ok (VBool default)
  | Some (RFlag b) => Ok (VBool b)
  | Some (RText _) => bad_parameter p
  end.

Definition text_value (p : Param) (given : list Raw) : Res PyVal :=
  match last given with
  | None => Ok VNone
  | Some (RText s) => Ok (VStr s)
  | Some (RFlag _) => bad_parameter p
  end.

Definition int_value (p : Param) (given : list Raw) : Res PyVal :=
  match last given with
  | None => Ok VNone
  | Some (RText s) =>
      match convert_int env s with
      | Some z => Ok (VInt z)
      | None => bad_parameter p
      end
  | Some (RFlag _) => bad_parameter p
  end.

Definition path_value (p : Param) (given : list Raw) : Res PyVal :=
  match last given with
  | Some (RFlag _) => bad_parameter p
  | o =>
      let s := match o with Some (RText s) => s | _ => default_datadir env end in
      match convert_path env s with
      | Some s' => Ok (VStr s')
      | None => bad_parameter p
      end
  end.

Definition choice_value (p : Param) (choices : list string) (given : list Raw)
    : Res PyVal :=
  match last given with
  | None => Ok VNone
  | Some (RText s) => if bool_decide (s ∈ choices) then Ok (VStr s) else bad_parameter p
  | Some (RFlag _) => bad_parameter p
  end.

Fixpoint texts (p : Param) (given : list Raw) : Res (list string) :=
  match given with
  | [] => Ok []
  | RText s :: given' =>
      match texts p given' with
      | Ok l => Ok (s :: l)
      | Raise e => Raise e
      end
  | RFlag _ :: _ => bad_parameter p
  end.

(** Type conversion of the value of one option: the [type], [default],
    [is_flag] and [multiple] of its decorator. *)
Definition process_value (p : Param) (given : list Raw) : Res PyVal :=
  match p with
  | P_payments | P_monitor => flag_value p true given
  | P_start_geth | P_version | P_u => flag_value p false given
  | P_datadir => path_value p given
  | P_protocol_id | P_start_geth_port => int_value p given
  | P_peer => match texts p given with
              | Ok l => Ok (VStrs l)
              | Raise e => Raise e
              end
  | P_loglevel => choice_value p loglevel_choices given
  | _ => text_value p given
  end.

(** Modelled from the spec: [PROTOCOL_CONST.patch_protocol_id] of
    [golem.core.variables], which is not under src/.  The callback of
    [--protocol_id] patches the process-wide protocol-version constant
    with the integer it is given and leaves it alone when the option is
    absent. *)
Definition patch_protocol_id (value : PyVal) : M PyVal :=
  match value with
  | VInt id => modify (set_protocol_id id) >>> ret VNone
  | _ => ret VNone
  end.

(** Modelled from the spec: [argsparser.enforce_start_geth_used], which
    is not under src/.  A port is valid only if [start_geth] is true in
    the parameters resolved so far; an absent port is always accepted. *)
Definition enforce_start_geth_used (params : gmap string PyVal) (value : PyVal)
    : M PyVal :=
  match value with
  | VNone => ret VNone
  | _ =>
      match params !! "start_geth" with
      | Some (VBool true) => ret value
      | _ => raise (UsageError "it makes sense only together with --start-geth")
      end
  end.

(** The [argsparser] parsers: they see the value and may consult
    [PROTOCOL_CONST.ID]. *)
Definition argsparser_callback (p : Param) (f : Z → PyVal → option PyVal)
    (value : PyVal) : M PyVal :=
  let* id := gets protocol_id in
  match f id value with
  | Some v => ret v
  | None => lift_res (bad_parameter p)
  end.

(** The [callback=] of each decorator. *)
Definition callback_of (p : Param) : option (gmap string PyVal → PyVal → M PyVal) :=
  match p with
  | P_protocol_id => Some (λ _, patch_protocol_id)
  | P_node_address => Some (λ _, argsparser_callback p (parse_node_addr env))
  | P_rpc_address => Some (λ _, argsparser_callback p (parse_rpc_address env))
  | P_peer => Some (λ _, argsparser_callback p (parse_peer env))
  | P_start_geth_port => Some enforce_start_geth_used
  | P_geth_address => Some (λ _, argsparser_callback p (parse_http_addr env))
  | _ => None
  end.

(** One parameter: convert, run the callback, store under its name. *)
Definition handle_parse_result (opts : list (Param * Raw)) (p : Param)
    (params : gmap string PyVal) : M (gmap string PyVal) :=
  let* value := lift_res (process_value p (supplied opts p)) in
  let* value :=
    match callback_of p with
    | Some callback =>
        let* id := gets protocol_id in
        call (ECallback p id) >>>
        callback params value
    | None => ret value
    end in
  ret (if expose_value p then <[param_name p := value]> params else params).

Fixpoint process_params (opts : list (Param * Raw)) (l : list Param)
    (params : gmap string PyVal) : M (gmap string PyVal) :=
  match l with
  | [] => ret params
  | p :: l' =>
      let* params := handle_parse_result opts p params in
      process_params opts l' params
  end.

Definition parse (opts : list (Param * Raw)) : M (gmap string PyVal) :=
  process_params opts
    (iter_params_for_processing (fst <$> opts) declaration_order) ∅.

(** The command: parse, then call [start] with the exposed values. *)
Definition main (opts : list (Param * Raw)) : M PyVal :=
  let* kw := parse opts in
  let* a := from_option TypeError (kwargs_to_args kw) in
  start env a.
End Parsing.

(** The exit status click gives the process: 0 when the command returns,
    2 for a usage error; any other exception ends the interpreter with 1. *)
Definition exit_code (r : Res PyVal) : Z :=
  match r with
  | Ok _ => 0
  | Raise (UsageError _) => 2
  | Raise _ => 1
  end.

(** ** Observations on a run *)

(** The calls a computation adds to the trace of the world it starts in. *)
Definition events_of {A} (m : M A) (w : World) : list Event :=
  drop (length (trace w)) (trace (snd (m w))).

(** A computation only ever appends to the trace, and every call it
    appends satisfies [P]. *)
Definition emits {A} (P : Event → Prop) (m : M A) : Prop :=
  ∀ w, ∃ l, trace (snd (m w)) = trace w ++ l ∧ Forall P l.

(** A computation leaves one component of the world as it found it. *)
Definition preserves {A X} (f : World → X) (m : M A) : Prop :=
  ∀ w, f (snd (m w)) = f w.

(** The three terminal actions of the bootstrap, and the call by which a
    run shows that it took one: the version banner, the call of
    [start_crossbar_worker], the construction of the node. *)
Inductive DispatchDecision := PRINT_VERSION | DELEGATE_WORKER | START_NODE.

Definition terminal_action (e : Event) : option DispatchDecision :=
  match e with
  | EPrint _ => Some PRINT_VERSION
  | EStartCrossbarWorker _ => Some DELEGATE_WORKER
  | ENode _ => Some START_NODE
  | _ => None
  end.

Definition decisions (tr : list Event) : list DispatchDecision :=
  omap terminal_action tr.

(** The dispatch table in the words of the specification, to compare the
    runs of [start] with. *)
Definition spec_dispatch (version : bool) (m : option string) : DispatchDecision :=
  if version then PRINT_VERSION
  else if bool_decide (m = Some worker_sentinel) then DELEGATE_WORKER
  else START_NODE.

(** Calls that do configuration work, build the node or log diagnostics. *)
Definition is_config_event (e : Event) : bool :=
  match e with
  | ENewConfigDesc | ELoadConfig _ | EInitFromAppConfig => true
  | _ => false
  end.

Definition is_node_event (e : Event) : bool :=
  match e with
  | EConfigLogging _ _ | EInstallReactor | ENode _ | ENodeStart => true
  | _ => false
  end.

Definition is_log_event (e : Event) : bool :=
  match e with
  | ELogInfo _ _ => true
  | _ => false
  end.

(** The world in which the version check of [start] is made: after
    [freeze_support()] and [delete_reactor()]. *)
Definition after_prologue (w : World) : World :=
  set_modules (delete reactor_module) (record EFreezeSupport w).

(** What [start_crossbar_worker] calls: the import of the module and its
    [run]. *)
Definition is_delegation (module : string) (e : Event) : Prop :=
  e = EImportModule module ∨ ∃ md, e = ERun md.

(** Several calls recorded at once. *)
Definition record_all (l : list Event) (w : World) : World :=
  mkWorld (sys_modules w) (sys_argv w) (logger_class w) (protocol_id w)
          (trace w ++ l).

(** The calls of lines 113-114 when the store loads. *)
Definition resolve_events (a : StartArgs) : list Event :=
  [ENewConfigDesc; ELoadConfig (a_datadir a); EInitFromAppConfig].

(** The calls of the [else] branch, lines 126-142, made while
    [PROTOCOL_CONST.ID = id] with the descriptor [config_desc]. *)
Definition start_node_events (env : Env) (a : StartArgs) (config_desc : ConfigDesc)
    (id : Z) : list Event :=
  [EConfigLogging (a_datadir a) (a_loglevel a);
   EInstallReactor;
   ELogInfo "GOLEM Version: %s" [VStr (golem_version env)];
   ELogInfo "Protocol Version: %s" [VInt id];
   ELogInfo "golem_messages Version: %s" [VStr (golem_messages_version env)];
   ELogInfo "system: %s, release: %s, version: %s, machine: %s"
     [VStr (platform_system env); VStr (platform_release env);
      VStr (platform_version env); VStr (platform_machine env)];
   ELogInfo "cpu: %s %s, %s cores" [cpu_vendor_id env; cpu_brand env; cpu_count env];
   ELogInfo "memory: %s, swap: %s"
     [VStr (naturalsize env (mem_total env)); VStr (naturalsize env (swap_total env))];
   ENode {| n_datadir := a_datadir a;
            n_config_desc := config_desc;
            n_transaction_system := a_payments a;
            n_peers := a_peer a;
            n_use_monitor := a_monitor a;
            n_start_geth := a_start_geth a;
            n_start_geth_port := a_start_geth_port a;
            n_geth_address := a_geth_address a |};
   ENodeStart].

(** The descriptor as the persisted store alone gives it. *)
Definition persisted_desc (env : Env) (app_config : AppConfig) : ConfigDesc :=
  init_from_app_config env (new_config_desc env) app_config.

(** A run did no configuration work: it neither built a descriptor nor
    touched the persisted store. *)
Definition no_config_work (l : list Event) : Prop :=
  Forall (λ e, is_config_event e = false) l.

(** The registry after lines 109-111. *)
Definition with_placeholders (modules : gmap string (option PyModule))
    : gmap string (option PyModule) :=
  <["win32com.gen_py.pythoncom" := None]>
    (<["win32com.gen_py.pywintypes" := None]>
       (<["win32com.gen_py.os" := None]> modules)).

Definition placeholder_names : list string :=
  ["win32com.gen_py.os"; "win32com.gen_py.pywintypes"; "win32com.gen_py.pythoncom"].

(** ** A concrete environment and concrete worlds, for evaluation *)

Definition sample_config : AppConfig :=
  <["rpc_address" := VStr "localhost"]>
    (<["rpc_port" := VInt 61000]>
       (<["node_address" := VStr ""]>
          (<["node_name" := VStr "golem"]> ∅))).

Definition sample_int (s : string) : option Z :=
  if bool_decide (s = "30") then Some 30%Z
  else if bool_decide (s = "31") then Some 31%Z
  else if bool_decide (s = "40102") then Some 40102%Z
  else None.

Definition sample_addr (id : Z) (v : PyVal) : option PyVal :=
  match v with
  | VNone => Some VNone
  | VStr "127.0.0.1:61000" => Some (VAddr (mkSocketAddress "127.0.0.1" 61000))
  | _ => None
  end.

Definition sample_env : Env := {|
  golem_version := "0.15.1";
  golem_messages_version := "2.1.0";
  load_config := λ d, if bool_decide (d = "/tmp/x") then Some sample_config else None;
  new_config_desc := ∅;
  init_from_app_config := λ d c, c ∪ d;
  import_module := λ n, if bool_decide (n = worker_sentinel) then Some (Module n) else None;
  platform_system := "Linux";
  platform_release := "4.15.0";
  platform_version := "#1 SMP";
  platform_machine := "x86_64";
  cpu_vendor_id := VStr "GenuineIntel";
  cpu_brand := VStr "Intel(R) Core(TM) i7";
  cpu_count := VInt 8;
  mem_total := 17179869184;
  swap_total := 0;
  naturalsize := λ z, if bool_decide (z = 0%Z) then "0 Bytes" else "16.0 GiB";
  default_datadir := "/tmp/x";
  convert_int := sample_int;
  convert_path := Some;
  parse_node_addr := λ _ v, match v with VNone => Some (VStr "") | VStr _ => Some v | _ => None end;
  parse_rpc_address := sample_addr;
  parse_peer := λ _ v, match v with VStrs [] => Some (VAddrs []) | _ => None end;
  parse_http_addr := λ _ v, Some v
|}.

Definition sample_world (argv : list string) : World := {|
  sys_modules := <[reactor_module := Some (Module reactor_module)]>
                   (<["win32com.gen_py.os" := Some (Module "win32com.gen_py.os")]> ∅);
  sys_argv := argv;
  logger_class := StdLogger;
  protocol_id := 29;
  trace := []
|}.

Definition sample_args (version : bool) (m : option string) : StartArgs := {|
  a_payments := true;
  a_monitor := true;
  a_datadir := "/tmp/x";
  a_node_address := Some "";
  a_rpc_address := Some (mkSocketAddress "127.0.0.1" 61000);
  a_peer := [];
  a_start_geth := false;
  a_start_geth_port := None;
  a_geth_address := VNone;
  a_version := version;
  a_m := m;
  a_loglevel := None
|}.

Definition version_args : StartArgs := sample_args true None.
Definition worker_args : StartArgs := sample_args false (Some worker_sentinel).
Definition headless_args : StartArgs := sample_args false None.
Definition worker_world : World :=
  sample_world ["golemapp"; "-m"; "crossbar.worker.process"; "-u"; "extra"].

(** [l] without the first occurrence of [x], [l] itself when there is none:
    what line 155-157 leave of [sys.argv]. *)
Definition without_first (x : string) (l : list string) : list string :=
  default l (list_remove x l).

(** The attributes lines 116-120 can assign. *)
Definition overlaid_fields : list string := ["rpc_address"; "rpc_port"; "node_address"].

(** An accessor in the manner of [slogging]: it installs its own logger
    class and returns a logger named after its first argument. *)
Definition slogging_getLogger (args : list PyVal) : M string :=
  modify (setLoggerClass SLogger) >>>
  match args with
  | VStr name :: _ => ret name
  | _ => raise TypeError
  end.

Definition argv_example : list string := ["-m"; "worker.module"; "-u"; "extra"].

(** A processing order in which the eager parameters come first. *)
Definition eager_first (l : list Param) : Prop :=
  ∃ l1 l2, l = l1 ++ l2
           ∧ Forall (λ p, is_eager p = true) l1
           ∧ Forall (λ p, is_eager p = false) l2.

(** The calls the parser makes: callbacks of options. *)
Definition is_callback (e : Event) : Prop := ∃ p id, e = ECallback p id.

(** The callback of a parameter that is not eager, entered while
    [PROTOCOL_CONST.ID = id]. *)
Definition lazy_callback_seeing (id : Z) (e : Event) : Prop :=
  ∃ p, is_eager p = false ∧ e = ECallback p id.

(** The callback of [--protocol_id]. *)
Definition protocol_id_callback (e : Event) : Prop :=
  ∃ id, e = ECallback P_protocol_id id.

(** Command lines for evaluation: the protocol id given last; a port
    without [--start-geth]; [--start-geth] without a port. *)
Definition late_protocol_id_opts : list (Param * Raw) :=
  [(P_rpc_address, RText "127.0.0.1:61000"); (P_start_geth_port, RText "30");
   (P_start_geth, RFlag true); (P_protocol_id, RText "31")].

Definition port_without_geth_opts : list (Param * Raw) :=
  [(P_start_geth_port, RText "30")].

Definition geth_without_port_opts : list (Param * Raw) :=
  [(P_start_geth, RFlag true)].

(** The errors click reports to the operator. *)
Definition is_usage_error (e : Exn) : Prop := ∃ msg, e = UsageError msg.

(** The parameters of [start] as line 99-100 name them. *)
Definition start_keywords : list string :=
  ["payments"; "monitor"; "datadir"; "node_address"; "rpc_address"; "peer";
   "start_geth"; "start_geth_port"; "geth_address"; "version"; "m"; "loglevel"].

(** Lines 160-161: the import of the module and the call of its [run]. *)
Definition import_then_run (env : Env) (module : string) : M unit :=
  let* module := importlib_import_module env module in
  call (ERun module).

(** The world lines 160-161 leave when the import gives [md]. *)
Definition after_delegation (module : string) (md : PyModule) (w : World) : World :=
  record (ERun md)
    (set_modules (<[module := Some md]>) (record (EImportModule module) w)).

(** A worker run on a store that does not load. *)
Definition corrupt_worker_args : StartArgs :=
  mkStartArgs true true "/corrupt" None None [] false None VNone false
    (Some worker_sentinel) None.

(** More command lines for evaluation, and what the sample environment
    makes of them. *)
Definition bad_loglevel_opts : list (Param * Raw) := [(P_loglevel, RText "TRACE")].

Definition port_before_geth_opts : list (Param * Raw) :=
  [(P_start_geth_port, RText "30"); (P_start_geth, RFlag true)].

Definition parsed_or_empty (r : Res (gmap string PyVal)) : gmap string PyVal :=
  match r with
  | Ok kw => kw
  | Raise _ => ∅
  end.

Definition empty_line_kwargs : gmap string PyVal :=
  parsed_or_empty (fst (parse sample_env [] (sample_world []))).

Definition late_kwargs : gmap string PyVal :=
  parsed_or_empty (fst (parse sample_env late_protocol_id_opts (sample_world []))).

Definition late_args : StartArgs :=
  default headless_args (kwargs_to_args late_kwargs).

Definition version_kwargs : gmap string PyVal :=
  parsed_or_empty (fst (parse sample_env [(P_version, RFlag true)] (sample_world []))).

(** The message of the port check. *)
Definition start_geth_message : string :=
  "it makes sense only together with --start-geth".

(** What the command line says about the version switch and about [-m]:
    the last occurrence counts, an absent switch is off. *)
Definition cli_version (opts : list (Param * Raw)) : bool :=
  match last (supplied opts P_version) with
  | Some (RFlag b) => b
  | _ => false
  end.

Definition cli_m (opts : list (Param * Raw)) : option string :=
  match last (supplied opts P_m) with
  | Some (RText s) => Some s
  | _ => None
  end.

Definition worker_line_opts : list (Param * Raw) :=
  [(P_m, RText "crossbar.worker.process"); (P_u, RFlag true)].

Definition worker_line_kwargs : gmap string PyVal :=
  parsed_or_empty (fst (parse sample_env worker_line_opts (sample_world []))).

Definition worker_line_args : StartArgs :=
  default headless_args (kwargs_to_args worker_line_kwargs).

Definition version_line_args : StartArgs :=
  default headless_args (kwargs_to_args version_kwargs).

(** Whether a result is a value, whether an option holds one. *)
Definition is_ok {A} (r : Res A) : bool :=
  match r with
  | Ok _ => true
  | Raise _ => false
  end.

Definition is_some {A} (o : option A) : bool :=
  match o with
  | Some _ => true
  | None => false
  end.

(** * Properties *)

(** ** Running sequences of statements *)

Lemma bind_ok {A B} (m : M A) (k : A → M B) w a w' :
  m w = (Ok a, w') → bind m k w = k a w'.
Proof. intros H. unfold bind. by rewrite H. Qed.

Lemma bind_raise {A B} (m : M A) (k : A → M B) w e w' :
  m w = (Raise e, w') → bind m k w = (Raise e, w').
Proof. intros H. unfold bind. by rewrite H. Qed.

Lemma events_of_app {A} (m : M A) w l :
  trace (snd (m w)) = trace w ++ l → events_of m w = l.
Proof. intros H. unfold events_of. rewrite H. apply drop_app_length. Qed.

Section Emits.
Context (P : Event → Prop).

Lemma emits_nothing {A} (m : M A) :
  (∀ w, trace (snd (m w)) = trace w) → emits P m.
Proof. intros H w. exists []. by rewrite H, app_nil_r. Qed.

Lemma emits_ret {A} (a : A) : emits P (ret a).
Proof. by apply emits_nothing. Qed.

Lemma emits_raise {A} e : emits P (@raise A e).
Proof. by apply emits_nothing. Qed.

Lemma emits_lift_res {A} (r : Res A) : emits P (lift_res r).
Proof. by apply emits_nothing. Qed.

Lemma emits_gets {A} (f : World → A) : emits P (gets f).
Proof. by apply emits_nothing. Qed.

Lemma emits_from_option {A} e (o : option A) : emits P (from_option e o).
Proof. destruct o; [apply emits_ret | apply emits_raise]. Qed.

Lemma emits_modify f : (∀ w, trace (f w) = trace w) → emits P (modify f).
Proof. intros Hf. by apply emits_nothing. Qed.

Lemma emits_call e : P e → emits P (call e).
Proof. intros He w. exists [e]. split; [done | by constructor]. Qed.

Lemma emits_bind {A B} (m : M A) (k : A → M B) :
  emits P m → (∀ a, emits P (k a)) → emits P (bind m k).
Proof.
  intros Hm Hk w. unfold bind. destruct (Hm w) as (l & Hl & HP).
  destruct (m w) as [[a|e] w1]; simpl in *.
  - destruct (Hk a w1) as (l' & Hl' & HP'). exists (l ++ l'). split.
    + by rewrite Hl', Hl, app_assoc.
    + by apply Forall_app.
  - by exists l.
Qed.
End Emits.

Lemma emits_weaken {A} (P Q : Event → Prop) (m : M A) :
  (∀ e, P e → Q e) → emits P m → emits Q m.
Proof.
  intros HPQ Hm w. destruct (Hm w) as (l & Hl & HP). exists l. split; [done|].
  eapply Forall_impl; eauto.
Qed.

Lemma emits_events_of {A} (P : Event → Prop) (m : M A) w :
  emits P m → Forall P (events_of m w).
Proof.
  intros Hm. destruct (Hm w) as (l & Hl & HP).
  by rewrite (events_of_app _ _ _ Hl).
Qed.

Create HintDb emits discriminated.
#[local] Hint Resolve emits_ret emits_raise emits_lift_res emits_gets
  emits_from_option : emits.
#[local] Hint Extern 1 (emits _ (modify _)) =>
  apply emits_modify; intros; reflexivity : emits.
#[local] Hint Extern 1 (emits _ (call _)) =>
  apply emits_call; simpl; eauto : emits.
#[local] Hint Extern 2 (emits _ (bind _ _)) =>
  apply emits_bind; [| intros] : emits.
#[local] Hint Extern 3 (emits _ (if ?b then _ else _)) => destruct b : emits.
#[local] Hint Extern 3 (emits _ (match ?o with Some _ => _ | None => _ end)) =>
  destruct o : emits.

(** ** The prologue: [freeze_support] and [delete_reactor] *)

Lemma delete_reactor_run w :
  delete_reactor w = (Ok tt, set_modules (delete reactor_module) w).
Proof.
  unfold delete_reactor, bind, gets, modify, ret. case_bool_decide as H; [done|].
  f_equal. destruct w as [mods argv lc pid tr]. unfold set_modules. simpl in *.
  f_equal. symmetry. apply delete_id.
  destruct (mods !! reactor_module) eqn:E; [|done]. destruct H. eauto.
Qed.

Lemma start_prologue env a w :
  start env a w = start_dispatch env a (after_prologue w).
Proof.
  unfold start. unfold bind at 1. simpl.
  unfold bind. by rewrite delete_reactor_run.
Qed.

Section Preserves.
Context {X : Type} (f : World → X).

Lemma preserves_ret {A} (a : A) : preserves f (ret a).
Proof. by intros w. Qed.

Lemma preserves_raise {A} e : preserves f (@raise A e).
Proof. by intros w. Qed.

Lemma preserves_lift_res {A} (r : Res A) : preserves f (lift_res r).
Proof. by intros w. Qed.

Lemma preserves_gets {A} (g : World → A) : preserves f (gets g).
Proof. by intros w. Qed.

Lemma preserves_from_option {A} e (o : option A) : preserves f (from_option e o).
Proof. by destruct o; intros w. Qed.

Lemma preserves_call e : (∀ w, f (record e w) = f w) → preserves f (call e).
Proof. intros H w. apply H. Qed.

Lemma preserves_modify g : (∀ w, f (g w) = f w) → preserves f (modify g).
Proof. intros H w. apply H. Qed.

Lemma preserves_bind {A B} (m : M A) (k : A → M B) :
  preserves f m → (∀ a, preserves f (k a)) → preserves f (bind m k).
Proof.
  intros Hm Hk w. unfold bind. specialize (Hm w).
  destruct (m w) as [[a|e] w1]; simpl in *; [|done].
  by rewrite Hk.
Qed.
End Preserves.

Create HintDb preserves discriminated.
#[local] Hint Resolve preserves_ret preserves_raise preserves_lift_res
  preserves_gets preserves_from_option : preserves.
#[local] Hint Extern 1 (preserves _ (call _)) =>
  apply preserves_call; intros; reflexivity : preserves.
#[local] Hint Extern 1 (preserves _ (modify _)) =>
  apply preserves_modify; intros; reflexivity : preserves.
#[local] Hint Extern 2 (preserves _ (bind _ _)) =>
  apply preserves_bind; [| intros] : preserves.
#[local] Hint Extern 3 (preserves _ (if ?b then _ else _)) => destruct b : preserves.
#[local] Hint Extern 3 (preserves _ (match ?o with Some _ => _ | None => _ end)) =>
  destruct o : preserves.

Lemma argv_pop_modules i : preserves sys_modules (argv_pop i).
Proof.
  unfold argv_pop. apply preserves_bind; [auto with preserves | intros argv].
  destruct (list_pop i argv) as [[x argv']|]; auto 10 with preserves.
Qed.

Lemma argv_remove_modules x : preserves sys_modules (argv_remove x).
Proof. unfold argv_remove. auto 10 with preserves. Qed.

Lemma argv_pop_emits P i : emits P (argv_pop i).
Proof.
  unfold argv_pop. apply emits_bind; [auto with emits | intros argv].
  destruct (list_pop i argv) as [[x argv']|]; auto 10 with emits.
Qed.

Lemma argv_remove_emits P x : emits P (argv_remove x).
Proof. unfold argv_remove. auto 10 with emits. Qed.

#[local] Hint Resolve argv_pop_modules argv_remove_modules : preserves.
#[local] Hint Resolve argv_pop_emits argv_remove_emits : emits.

Lemma preserves_key {A} (m : M A) name :
  preserves sys_modules m → preserves (λ w, sys_modules w !! name) m.
Proof. intros Hm w. cbn. by rewrite Hm. Qed.

(** The import writes one entry of the registry, that of the module. *)
Lemma importlib_import_module_other env module name :
  name ≠ module →
  preserves (λ w, sys_modules w !! name) (importlib_import_module env module).
Proof.
  intros Hne. unfold importlib_import_module.
  apply preserves_bind; [auto with preserves | intros _].
  apply preserves_bind; [auto with preserves | intros md].
  apply preserves_bind; [| auto with preserves].
  apply preserves_modify. intros w. cbn. by apply lookup_insert_ne.
Qed.

Lemma start_crossbar_worker_other_modules env module name :
  name ≠ module →
  preserves (λ w, sys_modules w !! name) (start_crossbar_worker env module).
Proof.
  intros Hne. unfold start_crossbar_worker.
  apply preserves_bind; [auto with preserves | intros argv].
  apply preserves_bind; [auto with preserves | intros idx].
  apply preserves_bind; [apply preserves_key, argv_pop_modules | intros _].
  apply preserves_bind; [apply preserves_key, argv_pop_modules | intros _].
  apply preserves_bind; [auto with preserves | intros argv'].
  apply preserves_bind.
  { case_bool_decide; [apply preserves_key, argv_remove_modules | auto with preserves]. }
  intros _.
  apply preserves_bind; [by apply importlib_import_module_other | intros md].
  auto with preserves.
Qed.

Lemma start_crossbar_worker_emits env module :
  emits (is_delegation module) (start_crossbar_worker env module).
Proof.
  unfold start_crossbar_worker, importlib_import_module, is_delegation.
  auto 20 with emits.
Qed.

Lemma resolve_config_modules env a : preserves sys_modules (resolve_config env a).
Proof. unfold resolve_config. auto 20 with preserves. Qed.

Lemma start_node_modules env a d : preserves sys_modules (start_node env a d).
Proof.
  unfold start_node, log_golem_version, log_platform_info.
  auto 30 with preserves.
Qed.

#[local] Hint Resolve resolve_config_modules start_node_modules : preserves.

Lemma pyinstaller_workarounds_run w :
  pyinstaller_workarounds w = (Ok tt, set_modules with_placeholders w).
Proof. reflexivity. Qed.

(** The entries of the registry at the end of [start], that of the worker
    module apart: the reactor entry is gone, and the three placeholders are
    there exactly when the version flag is off. *)
Lemma start_modules_lookup env a w name :
  name ≠ worker_sentinel →
  sys_modules (snd (start env a w)) !! name =
    (if a_version a then delete reactor_module (sys_modules w)
     else with_placeholders (delete reactor_module (sys_modules w))) !! name.
Proof.
  intros Hname. rewrite start_prologue. unfold start_dispatch.
  destruct (a_version a); [done|].
  unfold bind at 1. rewrite pyinstaller_workarounds_run.
  match goal with
  | |- sys_modules (snd (?m ?w1)) !! _ = _ =>
      assert (Hp : preserves (λ w, sys_modules w !! name) m);
        [| exact (Hp w1)]
  end.
  apply preserves_bind; [apply preserves_key; auto with preserves | intros d].
  destruct (a_m a) as [m|]; [case_bool_decide as Hm|].
  - subst m. apply preserves_bind; [auto with preserves | intros _].
    apply preserves_bind; [| auto with preserves].
    by apply start_crossbar_worker_other_modules.
  - apply preserves_key. auto 10 with preserves.
  - apply preserves_key. auto 10 with preserves.
Qed.

(** ** The branches of [start], run on an arbitrary world *)

(** Two descriptions of a world agree once the appended calls are put in
    one list. *)
Ltac same_world :=
  unfold bind, call, ret, after_prologue, record, record_all, set_modules;
  simpl; rewrite <- ?app_assoc; simpl; reflexivity.

Lemma record_all_record e l w : record e (record_all l w) = record_all (l ++ [e]) w.
Proof. unfold record, record_all. simpl. by rewrite app_assoc. Qed.

Lemma record_as_all e w : record e w = record_all [e] w.
Proof. reflexivity. Qed.

Lemma record_all_all l1 l2 w : record_all l2 (record_all l1 w) = record_all (l1 ++ l2) w.
Proof. unfold record_all. simpl. by rewrite app_assoc. Qed.

Lemma resolve_config_run env a w app_config :
  load_config env (a_datadir a) = Some app_config →
  resolve_config env a w =
    (Ok (overlay a (persisted_desc env app_config)), record_all (resolve_events a) w).
Proof.
  intros Hload. unfold resolve_config, bind, call, from_option. simpl.
  rewrite Hload. simpl. unfold persisted_desc. f_equal.
  rewrite !record_as_all, !record_all_all. reflexivity.
Qed.

Lemma resolve_config_fail env a w :
  load_config env (a_datadir a) = None →
  resolve_config env a w =
    (Raise ConfigLoadError, record_all [ENewConfigDesc; ELoadConfig (a_datadir a)] w).
Proof.
  intros Hload. unfold resolve_config, bind, call, from_option. simpl.
  rewrite Hload. simpl. f_equal.
  rewrite !record_as_all, !record_all_all. reflexivity.
Qed.

Lemma start_node_run env a d w :
  start_node env a d w =
    (Ok tt, record_all (start_node_events env a d (protocol_id w)) w).
Proof.
  unfold start_node, log_golem_version, log_platform_info, bind, call, gets.
  simpl. f_equal. rewrite !record_as_all, !record_all_all. reflexivity.
Qed.

(** The version branch. *)
Lemma start_version_run env a w :
  a_version a = true →
  start env a w =
    (Ok (VInt 0),
     set_modules (delete reactor_module)
       (record_all [EFreezeSupport; EPrint ("GOLEM version: " +:+ golem_version env)] w)).
Proof.
  intros Hv. rewrite start_prologue. unfold start_dispatch. rewrite Hv.
  same_world.
Qed.

(** The world in which the mode is chosen once the store has loaded. *)
Lemma start_resolved env a w app_config :
  a_version a = false →
  load_config env (a_datadir a) = Some app_config →
  start env a w =
    (let config_desc := overlay a (persisted_desc env app_config) in
     let headless := start_node env a config_desc >>> ret VNone in
     match a_m a with
     | Some m =>
         if bool_decide (m = worker_sentinel) then
           call (EStartCrossbarWorker m) >>>
           start_crossbar_worker env m >>> ret VNone
         else headless
     | None => headless
     end)
      (set_modules (λ m, with_placeholders (delete reactor_module m))
         (record_all (EFreezeSupport :: resolve_events a) w)).
Proof.
  intros Hv Hload. rewrite start_prologue. unfold start_dispatch. rewrite Hv.
  unfold bind at 1. rewrite pyinstaller_workarounds_run.
  erewrite bind_ok by (by apply resolve_config_run).
  simpl. f_equal. same_world.
Qed.

(** The store does not load: the bootstrap stops with the error. *)
Lemma start_load_fail env a w :
  a_version a = false →
  load_config env (a_datadir a) = None →
  start env a w =
    (Raise ConfigLoadError,
     set_modules (λ m, with_placeholders (delete reactor_module m))
       (record_all [EFreezeSupport; ENewConfigDesc; ELoadConfig (a_datadir a)] w)).
Proof.
  intros Hv Hload. rewrite start_prologue. unfold start_dispatch. rewrite Hv.
  unfold bind at 1. rewrite pyinstaller_workarounds_run.
  erewrite bind_raise by (by apply resolve_config_fail).
  f_equal. same_world.
Qed.

(** The headless branch. *)
Lemma start_headless_run env a w app_config :
  a_version a = false →
  load_config env (a_datadir a) = Some app_config →
  a_m a ≠ Some worker_sentinel →
  start env a w =
    (Ok VNone,
     set_modules (λ m, with_placeholders (delete reactor_module m))
       (record_all
          (EFreezeSupport :: resolve_events a ++
           start_node_events env a (overlay a (persisted_desc env app_config))
             (protocol_id w)) w)).
Proof.
  intros Hv Hload Hm. rewrite (start_resolved _ _ _ _ Hv Hload). simpl.
  assert (∀ w1,
    (start_node env a (overlay a (persisted_desc env app_config)) >>> ret VNone) w1
    = (Ok VNone, record_all
         (start_node_events env a (overlay a (persisted_desc env app_config))
            (protocol_id w1)) w1)) as Hnode.
  { intros w1. erewrite bind_ok by apply start_node_run. reflexivity. }
  destruct (a_m a) as [m|]; [case_bool_decide; [by subst|]|];
    rewrite Hnode; f_equal; same_world.
Qed.

(** The worker branch, up to the call of [start_crossbar_worker]. *)
Lemma start_worker_run env a w app_config :
  a_version a = false →
  load_config env (a_datadir a) = Some app_config →
  a_m a = Some worker_sentinel →
  start env a w =
    (start_crossbar_worker env worker_sentinel >>> ret VNone)
      (set_modules (λ m, with_placeholders (delete reactor_module m))
         (record_all
            (EFreezeSupport :: resolve_events a ++
             [EStartCrossbarWorker worker_sentinel]) w)).
Proof.
  intros Hv Hload Hm. rewrite (start_resolved _ _ _ _ Hv Hload). simpl.
  rewrite Hm. rewrite bool_decide_eq_true_2 by done.
  unfold bind at 1. simpl. f_equal. same_world.
Qed.

Lemma events_of_run {A} (m : M A) w r w' l :
  m w = (r, w') → trace w' = trace w ++ l → events_of m w = l.
Proof. intros Hm Htr. apply events_of_app. by rewrite Hm. Qed.

Lemma decisions_app l1 l2 : decisions (l1 ++ l2) = decisions l1 ++ decisions l2.
Proof. apply omap_app. Qed.

Lemma decisions_delegation module l :
  Forall (is_delegation module) l → decisions l = [].
Proof.
  induction 1 as [|e l He _ IH]; [done|].
  change (decisions (e :: l))
    with (match terminal_action e with
          | Some d => d :: decisions l
          | None => decisions l
          end).
  rewrite IH. by destruct He as [->|[md ->]].
Qed.

(** The calls of a run that delegates: the prologue, the configuration
    work, the call of [start_crossbar_worker] and what that function
    calls. *)
Lemma start_worker_events env a w app_config :
  a_version a = false →
  load_config env (a_datadir a) = Some app_config →
  a_m a = Some worker_sentinel →
  ∃ tail,
    events_of (start env a) w =
      EFreezeSupport :: resolve_events a ++
      EStartCrossbarWorker worker_sentinel :: tail
    ∧ Forall (is_delegation worker_sentinel) tail.
Proof.
  intros Hv Hload Hm.
  assert (emits (is_delegation worker_sentinel)
            (start_crossbar_worker env worker_sentinel >>> ret VNone)) as Hem.
  { apply emits_bind; [apply start_crossbar_worker_emits | auto with emits]. }
  unfold events_of. rewrite (start_worker_run _ _ _ _ Hv Hload Hm).
  match goal with |- context [snd (_ ?w2)] => destruct (Hem w2) as (tail & Htr & Htail) end.
  exists tail. split; [|done]. rewrite Htr. simpl.
  by rewrite <- app_assoc, drop_app_length.
Qed.

(** ** Mode dispatch *)

(** When the store does not load, no mode is entered at all. *)
Lemma no_dispatch_when_load_fails env a w :
  a_version a = false →
  load_config env (a_datadir a) = None →
  fst (start env a w) = Raise ConfigLoadError
  ∧ decisions (events_of (start env a) w) = [].
Proof.
  intros Hv Hload. rewrite (start_load_fail _ _ _ Hv Hload). split; [done|].
  erewrite events_of_run; [| by apply start_load_fail | reflexivity]. done.
Qed.

(** The mode of a run in which control reaches the test of [-m]. *)
Lemma dispatch_when_reached env a w :
  a_version a = true ∨ is_Some (load_config env (a_datadir a)) →
  decisions (events_of (start env a) w) = [spec_dispatch (a_version a) (a_m a)].
Proof.
  intros Hreach. unfold spec_dispatch.
  destruct (a_version a) eqn:Hv.
  - erewrite events_of_run; [| by apply start_version_run | reflexivity]. done.
  - destruct Hreach as [|[app_config Hload]]; [done|].
    case_bool_decide as Hm.
    + destruct (start_worker_events env a w app_config Hv Hload Hm)
        as (tail & -> & Htail).
      change (decisions ([EFreezeSupport; ENewConfigDesc; ELoadConfig (a_datadir a);
                          EInitFromAppConfig; EStartCrossbarWorker worker_sentinel]
                         ++ tail) = [DELEGATE_WORKER]).
      rewrite decisions_app, (decisions_delegation _ _ Htail). done.
    + erewrite events_of_run;
        [| by apply (start_headless_run env a w app_config) | reflexivity].
      done.
Qed.

(** C1, as the code has it.  The mode [start] enters is a function of the
    version flag, of the value of [-m] and of whether the persisted store
    loads.  With the version flag the run prints the banner and enters no
    other mode.  Without it, lines 113-114 load the store before [-m] is
    looked at: when the store loads, the run calls [start_crossbar_worker]
    if [-m] is the sentinel and builds the node otherwise (an absent [-m]
    included), and it enters no other mode; when the store does not load,
    the run enters no mode at all and [start] ends with the error of the
    load.  Nothing else in the arguments, the world or the environment
    enters into the choice. *)
Theorem dispatch_is_function_of_version_and_m env a w :
  decisions (events_of (start env a) w)
  = (if a_version a || is_some (load_config env (a_datadir a))
     then [spec_dispatch (a_version a) (a_m a)]
     else [])
  ∧ (a_version a = false →
     load_config env (a_datadir a) = None →
     fst (start env a w) = Raise ConfigLoadError).
Proof.
  split.
  - destruct (a_version a) eqn:Hv; cbn [orb].
    { rewrite <- Hv. apply dispatch_when_reached. by left. }
    destruct (load_config env (a_datadir a)) as [app_config|] eqn:Hload;
      cbn [is_some].
    + rewrite <- Hv. apply dispatch_when_reached. right. rewrite Hload. by eexists.
    + by apply no_dispatch_when_load_fails.
  - intros Hv Hload. by apply no_dispatch_when_load_fails.
Qed.

(** C1, as the claim has it, fails: parsed arguments with the version flag
    off and [-m] the sentinel, on a data directory whose store does not
    load.  The run ends with the error of the load and never calls
    [start_crossbar_worker]. *)
Lemma corrupt_store_enters_no_mode :
  a_version corrupt_worker_args = false
  ∧ a_m corrupt_worker_args = Some worker_sentinel
  ∧ spec_dispatch (a_version corrupt_worker_args) (a_m corrupt_worker_args)
    = DELEGATE_WORKER
  ∧ decisions (events_of (start sample_env corrupt_worker_args) worker_world) = []
  ∧ fst (start sample_env corrupt_worker_args worker_world) = Raise ConfigLoadError.
Proof.
  split; [reflexivity|]. split; [reflexivity|]. split; [reflexivity|].
  split; by vm_compute.
Qed.

(** C3.  With the version flag, [start] prints the version banner and
    returns 0, which click turns into exit status 0.  Besides
    [freeze_support()] the banner is the only call of the run: no
    descriptor is built, no store is loaded, no node is built or started
    and nothing is logged; the registry loses the reactor entry and is
    otherwise untouched, and the argument vector is untouched. *)
Theorem version_short_circuits env a w :
  a_version a = true →
  fst (start env a w) = Ok (VInt 0)
  ∧ exit_code (fst (start env a w)) = 0%Z
  ∧ events_of (start env a) w =
      [EFreezeSupport; EPrint ("GOLEM version: " +:+ golem_version env)]
  ∧ Forall (λ e, is_config_event e = false ∧ is_node_event e = false
                 ∧ is_log_event e = false) (events_of (start env a) w)
  ∧ sys_modules (snd (start env a w)) = delete reactor_module (sys_modules w)
  ∧ sys_argv (snd (start env a w)) = sys_argv w.
Proof.
  intros Hv.
  assert (events_of (start env a) w =
            [EFreezeSupport; EPrint ("GOLEM version: " +:+ golem_version env)]) as Hev.
  { erewrite events_of_run; [| by apply start_version_run | reflexivity]. done. }
  rewrite Hev, (start_version_run _ _ _ Hv). simpl.
  repeat split; repeat constructor.
Qed.

Lemma version_short_circuits_witness :
  a_version version_args = true
  ∧ fst (start sample_env version_args (sample_world ["golemapp"; "--version"]))
    = Ok (VInt 0).
Proof.
  split; [reflexivity|].
  apply (version_short_circuits sample_env version_args
           (sample_world ["golemapp"; "--version"])).
  reflexivity.
Defined.

(** ** The worker branch *)

(** C2, as the claim has it, fails: a run on the worker branch that builds
    a descriptor and loads the store from [/tmp/x]. *)
Lemma worker_branch_does_config_work :
  a_version worker_args = false
  ∧ a_m worker_args = Some worker_sentinel
  ∧ ¬ no_config_work (events_of (start sample_env worker_args) worker_world).
Proof.
  split; [done|]. split; [done|].
  assert (events_of (start sample_env worker_args) worker_world =
            [EFreezeSupport; ENewConfigDesc; ELoadConfig "/tmp/x"; EInitFromAppConfig;
             EStartCrossbarWorker worker_sentinel; EImportModule worker_sentinel;
             ERun (Module worker_sentinel)]) as -> by (by vm_compute).
  intros H. apply Forall_cons_1 in H as [_ H]. apply Forall_cons_1 in H as [H _].
  discriminate H.
Qed.

(** ** The placeholders of lines 109-111 *)

(** C6, as the code has it.  Lines 109-111 have no gate: whatever the
    platform and whatever the registry holds, they set the entries of
    exactly the three names [win32com.gen_py.os],
    [win32com.gen_py.pywintypes] and [win32com.gen_py.pythoncom] to [None],
    a real module registered under one of them included, and change no
    other entry.  Every run of [start] without the version flag reaches
    them and ends with the three entries at [None]; a run with the version
    flag ends with the three entries as it found them. *)
Theorem placeholders_registered_without_gate env a w name :
  fst (pyinstaller_workarounds w) = Ok tt
  ∧ sys_modules (snd (pyinstaller_workarounds w)) !! name
    = (if bool_decide (name ∈ placeholder_names) then Some None
       else sys_modules w !! name)
  ∧ (name ∈ placeholder_names →
     sys_modules (snd (start env a w)) !! name
     = if a_version a then sys_modules w !! name else Some None).
Proof.
  assert (with_placeholders (sys_modules w) !! name
          = if bool_decide (name ∈ placeholder_names) then Some None
            else sys_modules w !! name) as Hstep.
  { unfold with_placeholders, placeholder_names. case_bool_decide as Hin.
    - rewrite !elem_of_cons, elem_of_nil in Hin.
      destruct Hin as [->|[->|[->|[]]]]; by simplify_map_eq.
    - rewrite !elem_of_cons, elem_of_nil in Hin.
      by rewrite !lookup_insert_ne by naive_solver. }
  split; [done|]. split; [exact Hstep|].
  intros Hin.
  assert (name ≠ worker_sentinel ∧ name ≠ reactor_module) as [Hw Hr].
  { unfold placeholder_names in Hin. rewrite !elem_of_cons, elem_of_nil in Hin.
    destruct Hin as [->|[->|[->|[]]]]; split; discriminate. }
  rewrite (start_modules_lookup env a w name Hw).
  destruct (a_version a); [by apply lookup_delete_ne|].
  unfold with_placeholders, placeholder_names in *.
  rewrite !elem_of_cons, elem_of_nil in Hin.
  destruct Hin as [->|[->|[->|[]]]]; by simplify_map_eq.
Qed.

(** C6, as the claim has it, fails: on a Linux host whose registry holds a
    real [win32com.gen_py.os] module, a headless run replaces that module
    by [None] and registers the other two placeholders. *)
Lemma placeholders_registered_on_linux :
  platform_system sample_env = "Linux"
  ∧ sys_modules (sample_world ["golemapp"]) !! "win32com.gen_py.os"
    = Some (Some (Module "win32com.gen_py.os"))
  ∧ sys_modules (snd (start sample_env headless_args (sample_world ["golemapp"])))
      !! "win32com.gen_py.os" = Some None
  ∧ sys_modules (snd (start sample_env headless_args (sample_world ["golemapp"])))
      !! "win32com.gen_py.pywintypes" = Some None
  ∧ sys_modules (snd (start sample_env headless_args (sample_world ["golemapp"])))
      !! "win32com.gen_py.pythoncom" = Some None.
Proof. repeat split; by vm_compute. Qed.

(** ** The prologue *)

(** C10.  Whatever the arguments, [start] begins with [freeze_support()]
    and [delete_reactor()]: the two always return, the first call the run
    records is [freeze_support()], the registry they leave has no
    [twisted.internet.reactor] entry and is otherwise the one they found,
    and the version check and everything after it run in the world they
    leave.  The reactor entry is still absent when [start] ends. *)
Theorem prologue_precedes_dispatch env a w :
  (call EFreezeSupport >>> delete_reactor) w = (Ok tt, after_prologue w)
  ∧ trace (after_prologue w) = trace w ++ [EFreezeSupport]
  ∧ sys_modules (after_prologue w) = delete reactor_module (sys_modules w)
  ∧ sys_modules (after_prologue w) !! reactor_module = None
  ∧ start env a w = start_dispatch env a (after_prologue w)
  ∧ (∃ rest, events_of (start env a) w = EFreezeSupport :: rest)
  ∧ sys_modules (snd (start env a w)) !! reactor_module = None.
Proof.
  split. { unfold bind. simpl. by rewrite delete_reactor_run. }
  split; [done|]. split; [done|].
  split. { simpl. apply lookup_delete_eq. }
  split; [apply start_prologue|].
  split.
  - destruct (a_version a) eqn:Hv.
    + eexists. erewrite events_of_run; [| by apply start_version_run | reflexivity].
      reflexivity.
    + destruct (load_config env (a_datadir a)) as [app_config|] eqn:Hload.
      * destruct (decide (a_m a = Some worker_sentinel)) as [Hm|Hm].
        -- destruct (start_worker_events env a w app_config Hv Hload Hm)
             as (tail & -> & _). by eexists.
        -- eexists. erewrite events_of_run;
             [| by apply (start_headless_run env a w app_config) | reflexivity].
           reflexivity.
      * eexists. erewrite events_of_run;
          [| by apply start_load_fail | reflexivity].
        reflexivity.
  - rewrite start_modules_lookup by discriminate. unfold with_placeholders.
    destruct (a_version a); [apply lookup_delete_eq|].
    rewrite !lookup_insert_ne by done. apply lookup_delete_eq.
Qed.

(** ** The configuration overlay *)

Lemma overlay_rpc a (d : ConfigDesc) :
  match a_rpc_address a with
  | Some r => overlay a d !! "rpc_address" = Some (VStr (address r))
              ∧ overlay a d !! "rpc_port" = Some (VInt (port r))
  | None => overlay a d !! "rpc_address" = d !! "rpc_address"
            ∧ overlay a d !! "rpc_port" = d !! "rpc_port"
  end.
Proof.
  unfold overlay.
  destruct (a_rpc_address a) as [r|], (a_node_address a) as [s|]; simpl;
    try case_bool_decide; simpl; by simplify_map_eq.
Qed.

Lemma overlay_node a (d : ConfigDesc) :
  match a_node_address a with
  | Some s => if bool_decide (s = "")
              then overlay a d !! "node_address" = d !! "node_address"
              else overlay a d !! "node_address" = Some (VStr s)
  | None => overlay a d !! "node_address" = d !! "node_address"
  end.
Proof.
  unfold overlay.
  destruct (a_rpc_address a) as [r|], (a_node_address a) as [s|]; simpl;
    try case_bool_decide; simpl; by simplify_map_eq.
Qed.

Lemma overlay_other a (d : ConfigDesc) k :
  k ∉ overlaid_fields → overlay a d !! k = d !! k.
Proof.
  unfold overlaid_fields. rewrite !elem_of_cons, elem_of_nil. intros Hk.
  unfold overlay.
  destruct (a_rpc_address a) as [r|], (a_node_address a) as [s|]; simpl;
    try case_bool_decide; simpl;
    rewrite ?lookup_insert_ne by naive_solver; done.
Qed.

(** C4.  When the store loads, the descriptor [start] works with is the
    persisted one with at most three attributes replaced: an RPC address
    given on the command line replaces [rpc_address] and [rpc_port]; a
    node address given there and not empty replaces [node_address]; an
    absent RPC address, and an absent or empty node address, leave the
    persisted values; every other attribute is the persisted one. *)
Theorem overlay_cli_over_persisted env a w app_config :
  load_config env (a_datadir a) = Some app_config →
  ∃ d,
    fst (resolve_config env a w) = Ok d
    ∧ match a_rpc_address a with
      | Some r => d !! "rpc_address" = Some (VStr (address r))
                  ∧ d !! "rpc_port" = Some (VInt (port r))
      | None => d !! "rpc_address" = persisted_desc env app_config !! "rpc_address"
                ∧ d !! "rpc_port" = persisted_desc env app_config !! "rpc_port"
      end
    ∧ match a_node_address a with
      | Some s => if bool_decide (s = "")
                  then d !! "node_address" = persisted_desc env app_config !! "node_address"
                  else d !! "node_address" = Some (VStr s)
      | None => d !! "node_address" = persisted_desc env app_config !! "node_address"
      end
    ∧ ∀ k, k ∉ overlaid_fields → d !! k = persisted_desc env app_config !! k.
Proof.
  intros Hload. exists (overlay a (persisted_desc env app_config)).
  rewrite (resolve_config_run _ _ _ _ Hload).
  split; [done|]. split; [apply overlay_rpc|]. split; [apply overlay_node|].
  intros k. apply overlay_other.
Qed.

Lemma overlay_cli_over_persisted_witness :
  load_config sample_env (a_datadir headless_args) = Some sample_config
  ∧ ∃ d,
      fst (resolve_config sample_env headless_args (sample_world [])) = Ok d
      ∧ d !! "rpc_address" = Some (VStr "127.0.0.1")
      ∧ d !! "rpc_port" = Some (VInt 61000)
      ∧ d !! "node_address" = Some (VStr "")
      ∧ d !! "node_name" = Some (VStr "golem").
Proof.
  split; [reflexivity|].
  destruct (overlay_cli_over_persisted sample_env headless_args (sample_world [])
              sample_config eq_refl) as (d & Hd & [Hrpc Hport] & Hnode & Hother).
  exists d. split; [exact Hd|]. split; [exact Hrpc|]. split; [exact Hport|].
  split.
  - etransitivity; [exact Hnode|]. by vm_compute.
  - etransitivity; [apply Hother|].
    + unfold overlaid_fields. rewrite !elem_of_cons, elem_of_nil.
      by intros [?|[?|[?|[]]]].
    + by vm_compute.
Defined.

(** The node is built with the resolved descriptor. *)
Lemma node_receives_resolved_config env a w app_config :
  a_version a = false →
  load_config env (a_datadir a) = Some app_config →
  a_m a ≠ Some worker_sentinel →
  ∃ kw, ENode kw ∈ events_of (start env a) w
        ∧ n_config_desc kw = overlay a (persisted_desc env app_config)
        ∧ fst (resolve_config env a w) = Ok (n_config_desc kw).
Proof.
  intros Hv Hload Hm.
  erewrite events_of_run;
    [| by apply (start_headless_run env a w app_config) | reflexivity].
  exists {| n_datadir := a_datadir a;
            n_config_desc := overlay a (persisted_desc env app_config);
            n_transaction_system := a_payments a;
            n_peers := a_peer a;
            n_use_monitor := a_monitor a;
            n_start_geth := a_start_geth a;
            n_start_geth_port := a_start_geth_port a;
            n_geth_address := a_geth_address a |}.
  split; [| split; [reflexivity|]].
  - unfold start_node_events, resolve_events. set_solver.
  - by rewrite (resolve_config_run _ _ _ _ Hload).
Qed.

(** ** The logger-class guard *)

(** When the original accessor raises, the patched one raises the same
    exception and line 35 is not reached: the class is the one the original
    accessor left. *)
Lemma guard_propagates_exception (Logger : Type)
    (orig_getLogger : list PyVal → M Logger) args w e w1 :
  orig_getLogger args w = (Raise e, w1) →
  monkey_patched_getLogger Logger orig_getLogger args w = (Raise e, w1).
Proof.
  intros Horig. unfold monkey_patched_getLogger, bind, gets.
  by rewrite Horig.
Qed.

(** C7, as the code has it.  Every call of the patched accessor in which
    the original accessor returns a logger returns that same logger and
    leaves the default logger class at the value it had when the call
    began, whatever class the original accessor installed; the rest of the
    world is as the original accessor left it.  This holds in an arbitrary
    world, hence on every such call and not only the first.  A call in
    which the original accessor raises propagates the exception without
    reaching line 35: the world, the default logger class included, is
    then exactly as the original accessor left it. *)
Theorem guard_restores_logger_class (Logger : Type)
    (orig_getLogger : list PyVal → M Logger) args w :
  (∀ result w1,
     orig_getLogger args w = (Ok result, w1) →
     fst (monkey_patched_getLogger Logger orig_getLogger args w) = Ok result
     ∧ getLoggerClass (snd (monkey_patched_getLogger Logger orig_getLogger args w))
       = getLoggerClass w
     ∧ snd (monkey_patched_getLogger Logger orig_getLogger args w)
       = setLoggerClass (getLoggerClass w) w1)
  ∧ (∀ e w1,
       orig_getLogger args w = (Raise e, w1) →
       monkey_patched_getLogger Logger orig_getLogger args w = (Raise e, w1)).
Proof.
  split.
  - intros result w1 Horig. unfold monkey_patched_getLogger, bind, gets, modify, ret.
    rewrite Horig. done.
  - intros e w1. apply guard_propagates_exception.
Qed.

Lemma guard_restores_logger_class_witness :
  slogging_getLogger [VStr "golem.rpc"] (sample_world [])
  = (Ok "golem.rpc", setLoggerClass SLogger (sample_world []))
  ∧ getLoggerClass
      (snd (monkey_patched_getLogger string slogging_getLogger [VStr "golem.rpc"]
              (sample_world [])))
    = StdLogger.
Proof.
  split; [reflexivity|].
  destruct (guard_restores_logger_class string slogging_getLogger [VStr "golem.rpc"]
              (sample_world [])) as [Hreturns _].
  apply (Hreturns "golem.rpc" (setLoggerClass SLogger (sample_world []))).
  reflexivity.
Defined.

(** C7, as the claim has it, fails: an original accessor in the manner of
    [slogging], which installs its logger class and then rejects a name
    that is not a string.  The patched call raises, and the default logger
    class after the call is not the one before it. *)
Lemma guard_leaves_override_on_raise :
  getLoggerClass (sample_world []) = StdLogger
  ∧ fst (monkey_patched_getLogger string slogging_getLogger [VInt 7] (sample_world []))
    = Raise TypeError
  ∧ getLoggerClass
      (snd (monkey_patched_getLogger string slogging_getLogger [VInt 7]
              (sample_world [])))
    = SLogger
  ∧ getLoggerClass
      (snd (monkey_patched_getLogger string slogging_getLogger [VInt 7]
              (sample_world [])))
    ≠ getLoggerClass (sample_world []).
Proof. repeat split; [reflexivity.. | discriminate]. Qed.


(** ** The argument vector handed to the worker *)

Lemma list_index_first x pre rest :
  x ∉ pre → list_index x (pre ++ x :: rest) = Some (length pre).
Proof.
  induction pre as [|y pre IH]; simpl; intros Hx.
  - by rewrite decide_True.
  - rewrite not_elem_of_cons in Hx. destruct Hx as [Hxy Hx].
    rewrite decide_False by done. by rewrite IH.
Qed.

Lemma list_pop_middle pre x rest :
  list_pop (length pre) (pre ++ x :: rest) = Some (x, pre ++ rest).
Proof.
  unfold list_pop. rewrite list_lookup_middle by done.
  by rewrite delete_middle.
Qed.

Lemma list_remove_absent x l : x ∉ l → list_remove x l = None.
Proof.
  induction l as [|y l IH]; simpl; [done|]. intros Hx.
  rewrite not_elem_of_cons in Hx. destruct Hx as [Hxy Hx].
  rewrite decide_False by done. by rewrite IH.
Qed.

Lemma list_remove_first x l1 l2 :
  x ∉ l1 → list_remove x (l1 ++ x :: l2) = Some (l1 ++ l2).
Proof.
  induction l1 as [|y l1 IH]; simpl; intros Hx.
  - by rewrite decide_True.
  - rewrite not_elem_of_cons in Hx. destruct Hx as [Hxy Hx].
    rewrite decide_False by done. by rewrite IH.
Qed.

Lemma list_remove_present x l : x ∈ l → is_Some (list_remove x l).
Proof.
  induction l as [|y l IH]; simpl; [by rewrite elem_of_nil|].
  rewrite elem_of_cons. intros Hx. destruct (decide (y = x)) as [|Hne]; [by eexists|].
  destruct Hx as [->|Hx]; [done|]. destruct (IH Hx) as [l' ->]. by eexists.
Qed.

(** What [list.remove] drops is one occurrence of [x] and nothing else. *)
Lemma list_remove_filter x l l' :
  list_remove x l = Some l' →
  filter (λ y, y ≠ x) l' = filter (λ y, y ≠ x) l.
Proof.
  revert l'. induction l as [|y l IH]; simpl; intros l' Hrm; [done|].
  destruct (decide (y = x)) as [->|Hne].
  - inversion Hrm; subst. by rewrite filter_cons_False by (by intros []).
  - destruct (list_remove x l) as [l0|] eqn:E; [|done]. inversion Hrm; subst.
    rewrite !filter_cons_True by done. by rewrite (IH l0).
Qed.

Lemma without_first_filter x l :
  filter (λ y, y ≠ x) (without_first x l) = filter (λ y, y ≠ x) l.
Proof.
  unfold without_first. destruct (list_remove x l) as [l'|] eqn:E; [|done].
  by apply list_remove_filter.
Qed.

(** Lines 151-157 on an argument vector that holds [-m] and a value. *)
Lemma start_crossbar_worker_argv env module pre value post w :
  sys_argv w = pre ++ "-m" :: value :: post →
  "-m" ∉ pre →
  start_crossbar_worker env module w =
    import_then_run env module (set_argv (without_first "-u" (pre ++ post)) w).
Proof.
  intros Hargv Hpre. unfold start_crossbar_worker.
  unfold bind at 1. unfold gets at 1. rewrite Hargv.
  unfold bind at 1. rewrite list_index_first by done. simpl.
  unfold bind at 1. unfold argv_pop at 1, bind at 1, gets at 1. rewrite Hargv.
  rewrite list_pop_middle. unfold bind at 1. simpl.
  unfold bind at 1. unfold argv_pop at 1, bind at 1, gets at 1. simpl.
  rewrite list_pop_middle. unfold bind at 1. simpl.
  unfold bind at 1. unfold gets at 1. simpl.
  unfold bind at 1. unfold without_first.
  case_bool_decide as Hu.
  - destruct (list_remove_present _ _ Hu) as [l' Hl'].
    unfold argv_remove, bind at 1, gets at 1. simpl. rewrite Hl'. simpl.
    reflexivity.
  - rewrite (list_remove_absent _ _ Hu). simpl.
    destruct w; reflexivity.
Qed.

Lemma delegation_argv env module : preserves sys_argv (import_then_run env module).
Proof. unfold import_then_run, importlib_import_module. auto 10 with preserves. Qed.

Lemma delegation_result env module w :
  fst (import_then_run env module w)
  = match import_module env module with
    | Some _ => Ok tt
    | None => Raise (ImportError module)
    end.
Proof.
  unfold import_then_run, importlib_import_module, bind, call, from_option.
  simpl. by destruct (import_module env module).
Qed.

(** C5.  On an argument vector in which the first [-m] is followed by a
    value, [start_crossbar_worker] removes that [-m] and its value, then
    removes [-u] if it occurs (its first occurrence), and keeps every other
    argument in its place: the vector it leaves is the arguments before
    [-m] followed by the arguments after the value, without the [-u].
    The function then returns, or raises ImportError when the module cannot
    be imported; the vector is the same in both cases. *)
Theorem worker_argv_mutation env module pre value post w :
  sys_argv w = pre ++ "-m" :: value :: post →
  "-m" ∉ pre →
  ("-u" ∉ pre ++ post →
     sys_argv (snd (start_crossbar_worker env module w)) = pre ++ post)
  ∧ (∀ l1 l2, pre ++ post = l1 ++ "-u" :: l2 → "-u" ∉ l1 →
       sys_argv (snd (start_crossbar_worker env module w)) = l1 ++ l2)
  ∧ filter (λ x, x ≠ "-u") (sys_argv (snd (start_crossbar_worker env module w)))
    = filter (λ x, x ≠ "-u") (pre ++ post)
  ∧ fst (start_crossbar_worker env module w)
    = match import_module env module with
      | Some _ => Ok tt
      | None => Raise (ImportError module)
      end.
Proof.
  intros Hargv Hpre.
  rewrite (start_crossbar_worker_argv env module pre value post w Hargv Hpre).
  pose proof (delegation_argv env module) as Hkeep. unfold preserves in Hkeep.
  rewrite !Hkeep, delegation_result. simpl.
  split.
  { intros Hu. unfold without_first. by rewrite (list_remove_absent _ _ Hu). }
  split.
  { intros l1 l2 Heq Hu. unfold without_first.
    by rewrite Heq, (list_remove_first _ _ _ Hu). }
  split; [apply without_first_filter | reflexivity].
Qed.

Lemma worker_argv_mutation_witness :
  (sys_argv (sample_world argv_example) = [] ++ "-m" :: "worker.module" :: ["-u"; "extra"]
   ∧ "-m" ∉ @nil string)
  ∧ sys_argv (snd (start_crossbar_worker sample_env "worker.module"
                     (sample_world argv_example))) = ["extra"].
Proof.
  split; [split; [reflexivity | apply not_elem_of_nil]|].
  destruct (worker_argv_mutation sample_env "worker.module" [] "worker.module"
              ["-u"; "extra"] (sample_world argv_example) eq_refl
              (not_elem_of_nil _)) as (_ & Hrm & _).
  apply (Hrm [] ["extra"]); [reflexivity | apply not_elem_of_nil].
Defined.

(** ** The processing order of the options *)

Section ProcessingOrder.
Variable invocation_order : list Param.
Local Abbreviation key := (sort_key invocation_order).

Lemma insert_by_perm x l : insert_by key x l ≡ₚ x :: l.
Proof.
  induction l as [|y l IH]; simpl; [done|].
  destruct (key_le (key x) (key y)); [done|].
  by rewrite IH, Permutation_swap.
Qed.

Lemma sorted_by_perm l : sorted_by key l ≡ₚ l.
Proof.
  induction l as [|x l IH]; simpl; [done|].
  by rewrite insert_by_perm, IH.
Qed.

Lemma key_le_eager_lazy x y :
  is_eager x = true → is_eager y = false → key_le (key x) (key y) = true.
Proof. intros Hx Hy. unfold key_le, key, sort_key. simpl. by rewrite Hx, Hy. Qed.

Lemma key_le_lazy_eager x y :
  is_eager x = false → is_eager y = true → key_le (key x) (key y) = false.
Proof. intros Hx Hy. unfold key_le, key, sort_key. simpl. by rewrite Hx, Hy. Qed.

(** An eager parameter is inserted among the eager ones. *)
Lemma insert_eager x l1 l2 :
  is_eager x = true →
  Forall (λ p, is_eager p = false) l2 →
  insert_by key x (l1 ++ l2) = insert_by key x l1 ++ l2.
Proof.
  intros Hx Hl2. induction l1 as [|y l1 IH]; simpl.
  - destruct Hl2 as [|y l2 Hy _]; simpl; [done|].
    by rewrite key_le_eager_lazy.
  - destruct (key_le (key x) (key y)); [done|]. by rewrite IH.
Qed.

(** A parameter that is not eager is inserted after all the eager ones. *)
Lemma insert_lazy x l1 l2 :
  is_eager x = false →
  Forall (λ p, is_eager p = true) l1 →
  insert_by key x (l1 ++ l2) = l1 ++ insert_by key x l2.
Proof.
  intros Hx Hl1. induction Hl1 as [|y l1 Hy _ IH]; simpl; [done|].
  rewrite key_le_lazy_eager by done. by rewrite IH.
Qed.

Lemma sorted_by_eager_first l : eager_first (sorted_by key l).
Proof.
  induction l as [|x l IH]; simpl.
  - exists [], []. by repeat split.
  - destruct IH as (l1 & l2 & -> & Hl1 & Hl2).
    destruct (is_eager x) eqn:Hx.
    + exists (insert_by key x l1), l2. rewrite insert_eager by done.
      split; [done|]. split; [|done].
      rewrite insert_by_perm. by constructor.
    + exists l1, (insert_by key x l2). rewrite insert_lazy by done.
      split; [done|]. split; [done|].
      rewrite insert_by_perm. by constructor.
Qed.
End ProcessingOrder.

(** Whatever the command line, the eager options are processed first, and
    [--protocol_id] is among them. *)
Lemma processing_order_split invocation_order :
  ∃ l1 l2,
    iter_params_for_processing invocation_order declaration_order = l1 ++ l2
    ∧ Forall (λ p, is_eager p = true) l1
    ∧ Forall (λ p, is_eager p = false) l2
    ∧ P_protocol_id ∈ l1
    ∧ P_start_geth ∈ l1
    ∧ P_start_geth_port ∈ l2.
Proof.
  unfold iter_params_for_processing.
  destruct (sorted_by_eager_first invocation_order declaration_order)
    as (l1 & l2 & Heq & Hl1 & Hl2).
  exists l1, l2. split; [done|]. split; [done|]. split; [done|].
  assert (∀ p, p ∈ l1 ++ l2) as Hall.
  { intros p. rewrite <- Heq, sorted_by_perm.
    destruct p; apply (bool_decide_unpack _); by vm_compute. }
  rewrite Forall_forall in Hl1, Hl2.
  split; [|split].
  - destruct (elem_of_app l1 l2 P_protocol_id) as [[H|H] _]; [apply Hall|done|].
    by apply Hl2 in H.
  - destruct (elem_of_app l1 l2 P_start_geth) as [[H|H] _]; [apply Hall|done|].
    by apply Hl2 in H.
  - destruct (elem_of_app l1 l2 P_start_geth_port) as [[H|H] _]; [apply Hall| |done].
    by apply Hl1 in H.
Qed.

(** ** Parsing *)

Section ParsingFacts.
Variable env : Env.
Variable opts : list (Param * Raw).

Lemma process_params_app l1 l2 params w :
  process_params env opts (l1 ++ l2) params w =
    (let* params := process_params env opts l1 params in
     process_params env opts l2 params) w.
Proof.
  revert params w. induction l1 as [|p l1 IH]; intros params w; simpl.
  - reflexivity.
  - unfold bind.
    destruct (handle_parse_result env opts p params w) as [[params'|e] w1];
      [|done].
    rewrite IH. reflexivity.
Qed.

(** The three kinds of callback in the option table. *)
Lemma callback_of_cases p callback :
  callback_of env p = Some callback →
  (p = P_protocol_id ∧ callback = λ _, patch_protocol_id)
  ∨ (p ≠ P_protocol_id ∧ ∃ f, callback = λ _, argsparser_callback p f)
  ∨ (p = P_start_geth_port ∧ callback = enforce_start_geth_used).
Proof.
  destruct p; simpl; intros [= <-]; eauto 6.
Qed.

Lemma patch_protocol_id_run value w :
  patch_protocol_id value w =
    (Ok VNone, match value with VInt id => set_protocol_id id w | _ => w end).
Proof. by destruct value. Qed.

Lemma argsparser_callback_run p f value w :
  argsparser_callback p f value w =
    (match f (protocol_id w) value with
     | Some v => Ok v
     | None => bad_parameter p
     end, w).
Proof.
  unfold argsparser_callback, bind, gets.
  by destruct (f (protocol_id w) value).
Qed.

Lemma enforce_start_geth_used_world params value w :
  snd (enforce_start_geth_used params value w) = w.
Proof.
  unfold enforce_start_geth_used.
  destruct value; try done;
    by destruct (params !! "start_geth") as [[| [] | | | | |]|].
Qed.

(** No callback makes a call of its own. *)
Lemma callback_silent p callback params value w :
  callback_of env p = Some callback →
  trace (snd (callback params value w)) = trace w.
Proof.
  intros [[-> ->]|[[_ [f ->]]|[-> ->]]]%callback_of_cases.
  - rewrite patch_protocol_id_run. by destruct value.
  - by rewrite argsparser_callback_run.
  - by rewrite enforce_start_geth_used_world.
Qed.

(** Only the callback of [--protocol_id] writes [PROTOCOL_CONST.ID]. *)
Lemma callback_keeps_id p callback params value w :
  callback_of env p = Some callback →
  p ≠ P_protocol_id →
  protocol_id (snd (callback params value w)) = protocol_id w.
Proof.
  intros [[-> ->]|[[_ [f ->]]|[-> ->]]]%callback_of_cases Hp.
  - done.
  - by rewrite argsparser_callback_run.
  - by rewrite enforce_start_geth_used_world.
Qed.

(** What one parameter adds to the trace: the entry into its callback,
    if it has one and its value converts. *)
Lemma handle_parse_result_events p params w :
  ∃ l, trace (snd (handle_parse_result env opts p params w)) = trace w ++ l
       ∧ Forall (λ e, e = ECallback p (protocol_id w)) l
       ∧ (callback_of env p = None → l = []).
Proof.
  unfold handle_parse_result, bind at 1, lift_res.
  destruct (process_value env p (supplied opts p)) as [value|e]; simpl.
  2: { exists []. by rewrite app_nil_r. }
  unfold bind at 1.
  destruct (callback_of env p) as [callback|] eqn:Hcb; simpl.
  2: { exists []. by rewrite app_nil_r. }
  unfold bind, gets, call. simpl.
  pose proof (callback_silent p callback params value
                (record (ECallback p (protocol_id w)) w) Hcb) as Hsilent.
  destruct (callback params value (record (ECallback p (protocol_id w)) w))
    as [[value'|e] w1]; simpl in *;
    (exists [ECallback p (protocol_id w)]; split; [done|];
     split; [by repeat constructor | done]).
Qed.

Lemma handle_parse_result_keeps_id p params w :
  p ≠ P_protocol_id →
  protocol_id (snd (handle_parse_result env opts p params w)) = protocol_id w.
Proof.
  intros Hp. unfold handle_parse_result, bind at 1, lift_res.
  destruct (process_value env p (supplied opts p)) as [value|e]; simpl; [|done].
  unfold bind at 1.
  destruct (callback_of env p) as [callback|] eqn:Hcb; simpl; [|done].
  unfold bind, gets, call. simpl.
  pose proof (callback_keeps_id p callback params value
                (record (ECallback p (protocol_id w)) w) Hcb Hp) as Hkeep.
  by destruct (callback params value (record (ECallback p (protocol_id w)) w))
    as [[value'|e] w1].
Qed.

(** [--protocol_id] with an integer: the constant is patched. *)
Lemma handle_protocol_id_run params w id :
  process_value env P_protocol_id (supplied opts P_protocol_id) = Ok (VInt id) →
  handle_parse_result env opts P_protocol_id params w =
    (Ok params, set_protocol_id id (record (ECallback P_protocol_id (protocol_id w)) w)).
Proof.
  intros Hv. unfold handle_parse_result, bind at 1, lift_res. rewrite Hv.
  reflexivity.
Qed.
End ParsingFacts.

Section ParsingPhases.
Variable env : Env.
Variable opts : list (Param * Raw).

Lemma eager_params p :
  is_eager p = true → p = P_protocol_id ∨ p = P_start_geth.
Proof. destruct p; simpl; intros; try discriminate; auto. Qed.

(** The phase of the eager options: the only callback entered is that of
    [--protocol_id], and at the end the constant holds the given id. *)
Lemma eager_phase l params w id :
  Forall (λ p, is_eager p = true) l →
  process_value env P_protocol_id (supplied opts P_protocol_id) = Ok (VInt id) →
  ∃ evs,
    trace (snd (process_params env opts l params w)) = trace w ++ evs
    ∧ Forall protocol_id_callback evs
    ∧ (is_Some (match fst (process_params env opts l params w) with
                | Ok kw => Some kw
                | Raise _ => None
                end) →
       P_protocol_id ∈ l ∨ protocol_id w = id →
       protocol_id (snd (process_params env opts l params w)) = id).
Proof.
  intros Hl Hid. revert params w.
  induction Hl as [|p l Hp _ IH]; intros params w; simpl.
  - exists []. rewrite app_nil_r. split; [done|]. split; [done|].
    intros _ [H|H]; [by apply elem_of_nil in H | done].
  - unfold bind.
    destruct (eager_params p Hp) as [-> | ->].
    + rewrite (handle_protocol_id_run env opts params w id Hid).
      destruct (IH params
                  (set_protocol_id id (record (ECallback P_protocol_id (protocol_id w)) w)))
        as (evs & Htr & Hevs & Hfin).
      exists (ECallback P_protocol_id (protocol_id w) :: evs).
      split. { rewrite Htr. simpl. by rewrite <- app_assoc. }
      split. { constructor; [by eexists | done]. }
      intros Hok _. apply Hfin; [done | by right].
    + destruct (handle_parse_result_events env opts P_start_geth params w)
        as (l0 & Htr0 & _ & Hnil).
      rewrite (Hnil eq_refl), app_nil_r in Htr0.
      pose proof (handle_parse_result_keeps_id env opts P_start_geth params w
                    ltac:(done)) as Hkeep.
      destruct (handle_parse_result env opts P_start_geth params w)
        as [[params'|e] w1]; simpl in *.
      * destruct (IH params' w1) as (evs & Htr & Hevs & Hfin).
        exists evs. split; [by rewrite Htr, Htr0|]. split; [done|].
        intros Hok Hin. apply Hfin; [done|].
        rewrite Hkeep. destruct Hin as [Hin|Hin]; [|by right].
        left. by apply elem_of_cons in Hin as [|].
      * exists []. rewrite app_nil_r. split; [done|]. split; [done|].
        by intros [? ?].
Qed.

(** The phase of the other options: each callback is entered while the
    constant has the value it had when the phase began, and the phase
    leaves the constant alone. *)
Lemma lazy_phase l params w :
  Forall (λ p, is_eager p = false) l →
  ∃ evs,
    trace (snd (process_params env opts l params w)) = trace w ++ evs
    ∧ Forall (lazy_callback_seeing (protocol_id w)) evs
    ∧ protocol_id (snd (process_params env opts l params w)) = protocol_id w.
Proof.
  intros Hl. revert params w.
  induction Hl as [|p l Hp _ IH]; intros params w; simpl.
  - exists []. by rewrite app_nil_r.
  - unfold bind.
    destruct (handle_parse_result_events env opts p params w)
      as (l0 & Htr0 & Hl0 & _).
    assert (p ≠ P_protocol_id) as Hne by (by intros ->).
    pose proof (handle_parse_result_keeps_id env opts p params w Hne) as Hkeep.
    assert (Forall (lazy_callback_seeing (protocol_id w)) l0) as Hl0'.
    { eapply Forall_impl; [exact Hl0|]. intros e ->. by exists p. }
    destruct (handle_parse_result env opts p params w)
      as [[params'|e] w1]; simpl in *.
    + destruct (IH params' w1) as (evs & Htr & Hevs & Hfin).
      exists (l0 ++ evs). split; [by rewrite Htr, Htr0, app_assoc|].
      split; [|by rewrite Hfin].
      apply Forall_app. split; [done|]. by rewrite <- Hkeep.
    + by exists l0.
Qed.

Lemma parse_emits : emits is_callback (parse env opts).
Proof.
  unfold parse. generalize (∅ : gmap string PyVal).
  generalize (iter_params_for_processing (opts.*1) declaration_order).
  intros l. induction l as [|p l IH]; intros params; simpl.
  - auto with emits.
  - apply emits_bind; [|intros; apply IH].
    intros w. destruct (handle_parse_result_events env opts p params w)
      as (l0 & Htr0 & Hl0 & _).
    exists l0. split; [done|].
    eapply Forall_impl; [exact Hl0|]. intros e ->. by eexists _, _.
Qed.
End ParsingPhases.

(** ** The eager patch of the protocol id *)

(** C8.  When [--protocol_id] is given an integer, wherever it stands on
    the command line, the calls of a parse fall into two runs: first the
    callbacks of the eager options, where the only callback is the one that
    patches [PROTOCOL_CONST.ID]; then the callbacks of all other options,
    each of them entered while [PROTOCOL_CONST.ID] already holds the given
    integer.  A parse that succeeds leaves the constant at that integer. *)
Theorem eager_protocol_id_visible env opts w s id :
  last (supplied opts P_protocol_id) = Some (RText s) →
  convert_int env s = Some id →
  ∃ eager_calls lazy_calls,
    events_of (parse env opts) w = eager_calls ++ lazy_calls
    ∧ Forall protocol_id_callback eager_calls
    ∧ Forall (lazy_callback_seeing id) lazy_calls
    ∧ (∀ kw, fst (parse env opts w) = Ok kw →
             protocol_id (snd (parse env opts w)) = id).
Proof.
  intros Hlast Hconv.
  assert (process_value env P_protocol_id (supplied opts P_protocol_id) = Ok (VInt id))
    as Hid.
  { simpl. unfold int_value. by rewrite Hlast, Hconv. }
  unfold parse.
  destruct (processing_order_split (opts.*1))
    as (l1 & l2 & -> & Hl1 & Hl2 & Hin & _).
  destruct (eager_phase env opts l1 ∅ w id Hl1 Hid) as (evs1 & Htr1 & Hevs1 & Hfin1).
  unfold events_of. rewrite process_params_app. unfold bind.
  destruct (process_params env opts l1 ∅ w) as [[params1|e] w1]; simpl in *.
  - assert (protocol_id w1 = id) as Hw1 by (apply Hfin1; [by eexists | by left]).
    destruct (lazy_phase env opts l2 params1 w1 Hl2) as (evs2 & Htr2 & Hevs2 & Hfin2).
    exists evs1, evs2. rewrite Htr2, Htr1, <- app_assoc, drop_app_length.
    split; [done|]. split; [done|]. split; [by rewrite <- Hw1|].
    intros kw _. by rewrite Hfin2.
  - exists evs1, []. rewrite Htr1, drop_app_length, app_nil_r.
    split; [done|]. split; [done|]. split; [done|]. by intros kw.
Qed.

Lemma eager_protocol_id_visible_witness :
  (last (supplied late_protocol_id_opts P_protocol_id) = Some (RText "31")
   ∧ convert_int sample_env "31" = Some 31%Z)
  ∧ ∃ eager_calls lazy_calls,
      events_of (parse sample_env late_protocol_id_opts) (sample_world [])
      = eager_calls ++ lazy_calls
      ∧ Forall protocol_id_callback eager_calls
      ∧ Forall (lazy_callback_seeing 31) lazy_calls.
Proof.
  split; [by split|].
  destruct (eager_protocol_id_visible sample_env late_protocol_id_opts
              (sample_world []) "31" 31%Z eq_refl eq_refl)
    as (eager_calls & lazy_calls & Hev & He & Hl & _).
  exists eager_calls, lazy_calls.
  split; [exact Hev|]. split; [exact He | exact Hl].
Defined.

(** The same command line, evaluated: the patch is the first call although
    [--protocol_id] is the last option given. *)
Example late_protocol_id_trace :
  events_of (parse sample_env late_protocol_id_opts) (sample_world [])
  = [ECallback P_protocol_id 29; ECallback P_rpc_address 31;
     ECallback P_start_geth_port 31; ECallback P_node_address 31;
     ECallback P_peer 31; ECallback P_geth_address 31].
Proof. by vm_compute. Qed.

(** ** The port of the local geth node *)

Section PortValidation.
Variable env : Env.
Variable opts : list (Param * Raw).

Lemma bad_parameter_usage {A} p e : @bad_parameter A p = Raise e → is_usage_error e.
Proof. intros [= <-]. by eexists. Qed.

Lemma texts_error p given e : texts p given = Raise e → is_usage_error e.
Proof.
  induction given as [|[b|s] given IH]; simpl; [done| |].
  - apply bad_parameter_usage.
  - destruct (texts p given); [done|]. intros [= <-]. by apply IH.
Qed.

Lemma process_value_error p given e :
  process_value env p given = Raise e → is_usage_error e.
Proof.
  destruct p; simpl;
    unfold flag_value, text_value, int_value, path_value, choice_value;
    try (destruct (texts _ given) eqn:Ht;
         [done | intros [= <-]; by eapply texts_error]);
    repeat case_match; try done; apply bad_parameter_usage.
Qed.

Lemma callback_error p callback params value w e :
  callback_of env p = Some callback →
  fst (callback params value w) = Raise e → is_usage_error e.
Proof.
  intros [[-> ->]|[[_ [f ->]]|[-> ->]]]%callback_of_cases.
  - by rewrite patch_protocol_id_run.
  - rewrite argsparser_callback_run. simpl.
    destruct (f (protocol_id w) value); [done|]. apply bad_parameter_usage.
  - unfold enforce_start_geth_used.
    destruct value; try done;
      destruct (params !! "start_geth") as [[| [] | | | | |]|]; simpl;
      try done; intros [= <-]; by eexists.
Qed.

(** What one parameter does to the parameters resolved so far. *)
Lemma handle_parse_result_inv p params w :
  match fst (handle_parse_result env opts p params w) with
  | Raise e => is_usage_error e
  | Ok params' =>
      ∃ value, params' = (if expose_value p then <[param_name p := value]> params
                          else params)
               ∧ (callback_of env p = None →
                  process_value env p (supplied opts p) = Ok value)
               ∧ (p = P_start_geth_port →
                  ∃ v0, process_value env p (supplied opts p) = Ok v0
                        ∧ fst (enforce_start_geth_used params v0
                                 (record (ECallback p (protocol_id w)) w)) = Ok value)
  end.
Proof.
  unfold handle_parse_result, bind at 1, lift_res.
  destruct (process_value env p (supplied opts p)) as [v0|e] eqn:Hpv; simpl.
  2: { by eapply process_value_error. }
  unfold bind at 1.
  destruct (callback_of env p) as [callback|] eqn:Hcb; simpl.
  2: { exists v0. split; [done|]. split; [done|]. intros ->. done. }
  unfold bind, gets, call. simpl.
  pose proof (callback_error p callback params v0
                (record (ECallback p (protocol_id w)) w)) as Herr.
  destruct (callback params v0 (record (ECallback p (protocol_id w)) w))
    as [[value|e] w1] eqn:Hrun; simpl in *.
  - exists value. split; [done|]. split; [done|].
    intros ->. exists v0. split; [done|].
    simpl in Hcb. injection Hcb as <-. by rewrite Hrun.
  - by apply (Herr e).
Qed.

Lemma process_params_error l params w e :
  fst (process_params env opts l params w) = Raise e → is_usage_error e.
Proof.
  revert params w. induction l as [|p l IH]; intros params w; simpl; [done|].
  unfold bind.
  pose proof (handle_parse_result_inv p params w) as Hinv.
  destruct (handle_parse_result env opts p params w) as [[params'|e'] w1];
    simpl in *.
  - apply IH.
  - by intros [= <-].
Qed.

(** A port given without [--start-geth] stops the parse. *)
Lemma port_rejected l params w :
  supplied opts P_start_geth = [] →
  supplied opts P_start_geth_port ≠ [] →
  P_start_geth_port ∈ l →
  params !! "start_geth" ≠ Some (VBool true) →
  ∃ e, fst (process_params env opts l params w) = Raise e.
Proof.
  intros Hgeth Hport. revert params w.
  induction l as [|p l IH]; intros params w Hin Hparams; simpl.
  { by apply elem_of_nil in Hin. }
  unfold bind.
  pose proof (handle_parse_result_inv p params w) as Hinv.
  destruct (handle_parse_result env opts p params w) as [[params'|e'] w1];
    simpl in *; [|by eexists].
  destruct Hinv as (value & -> & Hplain & Hcheck).
  destruct (decide (p = P_start_geth_port)) as [->|Hne].
  - exfalso. destruct (Hcheck eq_refl) as (v0 & Hv0 & Henf).
    simpl in Hv0. unfold int_value in Hv0.
    destruct (last (supplied opts P_start_geth_port)) as [[b|s]|] eqn:Hlast.
    + done.
    + destruct (convert_int env s); [|done]. injection Hv0 as <-.
      unfold enforce_start_geth_used in Henf.
      by destruct (params !! "start_geth") as [[| [] | | | | |]|].
    + apply last_None in Hlast. done.
  - apply IH.
    + by apply elem_of_cons in Hin as [|].
    + destruct (decide (p = P_start_geth)) as [->|Hne'].
      * simpl. rewrite lookup_insert_eq.
        specialize (Hplain eq_refl). simpl in Hplain.
        rewrite Hgeth in Hplain. injection Hplain as <-. done.
      * destruct (expose_value p); [|done].
        rewrite lookup_insert_ne; [done|]. by destruct p.
Qed.

Lemma parse_rejects_port w :
  supplied opts P_start_geth = [] →
  supplied opts P_start_geth_port ≠ [] →
  ∃ msg, fst (parse env opts w) = Raise (UsageError msg).
Proof.
  intros Hgeth Hport. unfold parse.
  destruct (processing_order_split (opts.*1)) as (l1 & l2 & -> & _ & _ & _ & _ & Hin).
  destruct (port_rejected (l1 ++ l2) ∅ w Hgeth Hport) as [e He].
  - apply elem_of_app. by right.
  - done.
  - destruct (process_params_error _ _ _ _ He) as [msg ->]. by exists msg.
Qed.
End PortValidation.

(** A parse that raises ends the command: [start] is not called. *)
Lemma main_stops_with_parse env opts w e :
  fst (parse env opts w) = Raise e → fst (main env opts w) = Raise e.
Proof.
  intros Hp. unfold main, bind.
  destruct (parse env opts w) as [[kw|e'] w1]; [done|].
  cbn [fst] in *. injection Hp as ->. reflexivity.
Qed.

Lemma events_of_main_stopped env opts w e :
  fst (parse env opts w) = Raise e →
  events_of (main env opts) w = events_of (parse env opts) w.
Proof.
  intros Hp. unfold events_of, main, bind.
  destruct (parse env opts w) as [[kw|e'] w1]; [done|].
  reflexivity.
Qed.

(** An absent port resolves to [None]; the callback accepts it. *)
Lemma port_absent_passes env opts params w :
  supplied opts P_start_geth_port = [] →
  fst (handle_parse_result env opts P_start_geth_port params w)
  = Ok (<["start_geth_port" := VNone]> params).
Proof.
  intros Hport. unfold handle_parse_result, lift_res.
  unfold bind at 1.
  change (process_value env P_start_geth_port (supplied opts P_start_geth_port))
    with (int_value env P_start_geth_port (supplied opts P_start_geth_port)).
  unfold int_value. rewrite Hport. reflexivity.
Qed.

(** C9.  A command line that gives [--start-geth-port] and not
    [--start-geth] never reaches [start]: the command stops with a usage
    error, exit status 2, and the only calls made are option callbacks, so
    no descriptor is built, no store is loaded and no node is built.  A
    command line that gives no [--start-geth-port] passes the port check
    whatever the other parameters hold, in particular when [--start-geth]
    was given: the parameter resolves to [None]. *)
Theorem start_geth_port_validation env opts params w :
  (supplied opts P_start_geth = [] →
   supplied opts P_start_geth_port ≠ [] →
   ∃ msg,
     fst (main env opts w) = Raise (UsageError msg)
     ∧ exit_code (fst (main env opts w)) = 2%Z
     ∧ Forall (λ e, is_callback e ∧ is_config_event e = false
                    ∧ is_node_event e = false)
         (events_of (main env opts) w))
  ∧ (supplied opts P_start_geth_port = [] →
     fst (handle_parse_result env opts P_start_geth_port params w)
     = Ok (<["start_geth_port" := VNone]> params)).
Proof.
  split.
  - intros Hgeth Hport.
    destruct (parse_rejects_port env opts w Hgeth Hport) as [msg Hmsg].
    pose proof (emits_events_of _ _ w (parse_emits env opts)) as Hev.
    exists msg.
    rewrite (main_stops_with_parse env opts w _ Hmsg),
      (events_of_main_stopped env opts w _ Hmsg).
    split; [done|]. split; [done|].
    eapply Forall_impl; [exact Hev|].
    intros e He. split; [done|]. by destruct He as (p & id & ->).
  - intros Hport. apply port_absent_passes, Hport.
Qed.

Lemma start_geth_port_validation_witness :
  (supplied port_without_geth_opts P_start_geth = []
   ∧ supplied port_without_geth_opts P_start_geth_port ≠ []
   ∧ supplied geth_without_port_opts P_start_geth_port = [])
  ∧ (∃ msg, fst (main sample_env port_without_geth_opts (sample_world []))
            = Raise (UsageError msg))
  ∧ fst (handle_parse_result sample_env geth_without_port_opts P_start_geth_port
           (<["start_geth" := VBool true]> ∅) (sample_world []))
    = Ok (<["start_geth_port" := VNone]> (<["start_geth" := VBool true]> ∅)).
Proof.
  split; [split; [reflexivity | split; [discriminate | reflexivity]]|]. split.
  - destruct (start_geth_port_validation sample_env port_without_geth_opts ∅
                (sample_world [])) as [Hreject _].
    destruct Hreject as (msg & Hmsg & _); [reflexivity | discriminate |].
    exists msg. exact Hmsg.
  - apply (start_geth_port_validation sample_env geth_without_port_opts
             (<["start_geth" := VBool true]> ∅) (sample_world [])).
    reflexivity.
Defined.

(** [--start-geth] alone, evaluated: the command reaches [start] and builds
    the node with [start_geth=True] and no port. *)
Example start_geth_alone_runs :
  fst (main sample_env geth_without_port_opts (sample_world ["golemapp"; "--start-geth"]))
  = Ok VNone.
Proof. by vm_compute. Qed.

(** [--version] alone, evaluated from the command line to the exit
    status. *)
Example version_end_to_end :
  exit_code (fst (main sample_env [(P_version, RFlag true)]
                    (sample_world ["golemapp"; "--version"]))) = 0%Z
  ∧ Forall (λ e, is_callback e ∨ e = EFreezeSupport ∨ ∃ line, e = EPrint line)
      (events_of (main sample_env [(P_version, RFlag true)])
         (sample_world ["golemapp"; "--version"])).
Proof.
  split; [by vm_compute|].
  assert (events_of (main sample_env [(P_version, RFlag true)])
            (sample_world ["golemapp"; "--version"])
          = [ECallback P_protocol_id 29; ECallback P_node_address 29;
             ECallback P_rpc_address 29; ECallback P_peer 29;
             ECallback P_start_geth_port 29; ECallback P_geth_address 29;
             EFreezeSupport; EPrint "GOLEM version: 0.15.1"]) as ->
    by (by vm_compute).
  repeat (constructor; [first [left; by eexists _, _ | right; left; done
                              | right; right; by eexists] |]).
  constructor.
Qed.


(** * Further properties of the bootstrap *)

(** ** [delete_reactor] *)

(** X1.  [delete_reactor] always returns; it takes the entry
    [twisted.internet.reactor] out of the registry when there is one (an
    entry holding [None] counts) and changes no other entry, makes no call,
    leaves the argument vector alone, and a second run changes nothing. *)
Theorem delete_reactor_removes_only_reactor w name :
  fst (delete_reactor w) = Ok tt
  ∧ sys_modules (snd (delete_reactor w)) !! name
    = (if bool_decide (name = reactor_module) then None else sys_modules w !! name)
  ∧ trace (snd (delete_reactor w)) = trace w
  ∧ sys_argv (snd (delete_reactor w)) = sys_argv w
  ∧ snd (delete_reactor (snd (delete_reactor w))) = snd (delete_reactor w).
Proof.
  rewrite !delete_reactor_run. cbn [fst snd].
  split; [done|]. split.
  { cbn. case_bool_decide as Hn.
    - subst. apply lookup_delete_eq.
    - by apply lookup_delete_ne. }
  split; [done|]. split; [done|].
  unfold set_modules. cbn. f_equal. apply delete_delete_eq.
Qed.

(** ** [start_crossbar_worker] on argument vectors it cannot rewrite *)

Lemma list_index_absent x l : x ∉ l → list_index x l = None.
Proof.
  induction l as [|y l IH]; simpl; [done|]. intros Hx.
  rewrite not_elem_of_cons in Hx. destruct Hx as [Hxy Hx].
  rewrite decide_False by done. by rewrite IH.
Qed.

(** X2.  When [sys.argv] holds no [-m], [start_crossbar_worker] raises
    ValueError on its first statement: the argument vector and the rest of
    the world are as they were, and no module is imported. *)
Theorem worker_without_m_raises env module w :
  "-m" ∉ sys_argv w →
  start_crossbar_worker env module w = (Raise ValueError, w).
Proof.
  intros Habsent. unfold start_crossbar_worker.
  unfold bind at 1. unfold gets at 1.
  unfold bind at 1. by rewrite (list_index_absent _ _ Habsent).
Qed.

Lemma worker_without_m_raises_witness :
  ("-m" ∉ sys_argv (sample_world ["golemapp"; "-mcrossbar.worker.process"]))
  ∧ start_crossbar_worker sample_env worker_sentinel
      (sample_world ["golemapp"; "-mcrossbar.worker.process"])
    = (Raise ValueError, sample_world ["golemapp"; "-mcrossbar.worker.process"]).
Proof.
  assert ("-m" ∉ sys_argv (sample_world ["golemapp"; "-mcrossbar.worker.process"]))
    as Habsent.
  { cbn. rewrite !not_elem_of_cons. repeat split; [done..|]. apply not_elem_of_nil. }
  split; [exact Habsent|].
  exact (worker_without_m_raises sample_env worker_sentinel
           (sample_world ["golemapp"; "-mcrossbar.worker.process"]) Habsent).
Defined.

Lemma list_pop_end (l : list string) : list_pop (length l) l = None.
Proof. unfold list_pop. by rewrite lookup_ge_None_2. Qed.

(** X3.  When the first [-m] is the last argument, the first [pop] removes
    it and the second [pop] raises IndexError: the vector is left without
    its [-m], the [-u] test and the import are not reached. *)
Theorem worker_m_without_value_raises env module pre w :
  sys_argv w = pre ++ ["-m"] →
  "-m" ∉ pre →
  start_crossbar_worker env module w = (Raise IndexError, set_argv pre w).
Proof.
  intros Hargv Hpre. unfold start_crossbar_worker.
  unfold bind at 1. unfold gets at 1. rewrite Hargv.
  unfold bind at 1. rewrite list_index_first by done. cbn [from_option ret].
  unfold bind at 1. unfold argv_pop at 1, bind at 1, gets at 1. rewrite Hargv.
  rewrite list_pop_middle. unfold bind at 1. cbn [modify ret].
  rewrite app_nil_r.
  unfold bind at 1. unfold argv_pop at 1, bind at 1, gets at 1. cbn [sys_argv set_argv].
  rewrite list_pop_end. reflexivity.
Qed.

Lemma worker_m_without_value_raises_witness :
  (sys_argv (sample_world ["golemapp"; "-m"]) = ["golemapp"] ++ ["-m"]
   ∧ "-m" ∉ ["golemapp"])
  ∧ start_crossbar_worker sample_env worker_sentinel (sample_world ["golemapp"; "-m"])
    = (Raise IndexError, sample_world ["golemapp"]).
Proof.
  assert ("-m" ∉ ["golemapp"]) as Hpre.
  { rewrite not_elem_of_cons. split; [done | apply not_elem_of_nil]. }
  split; [split; [reflexivity | exact Hpre]|].
  exact (worker_m_without_value_raises sample_env worker_sentinel ["golemapp"]
           (sample_world ["golemapp"; "-m"]) eq_refl Hpre).
Defined.


(** ** The delegation itself *)

Lemma delegation_run env module w :
  import_then_run env module w
  = match import_module env module with
    | Some md => (Ok tt, after_delegation module md w)
    | None => (Raise (ImportError module), record (EImportModule module) w)
    end.
Proof.
  unfold import_then_run, importlib_import_module, after_delegation,
    bind, call, from_option, modify.
  cbn [ret raise]. by destruct (import_module env module).
Qed.

(** The whole of [start_crossbar_worker] on a vector that holds [-m] and a
    value. *)
Lemma start_crossbar_worker_run env module pre value post w :
  sys_argv w = pre ++ "-m" :: value :: post →
  "-m" ∉ pre →
  start_crossbar_worker env module w =
    match import_module env module with
    | Some md =>
        (Ok tt,
         after_delegation module md (set_argv (without_first "-u" (pre ++ post)) w))
    | None =>
        (Raise (ImportError module),
         record (EImportModule module)
           (set_argv (without_first "-u" (pre ++ post)) w))
    end.
Proof.
  intros Hargv Hpre.
  rewrite (start_crossbar_worker_argv env module pre value post w Hargv Hpre).
  apply delegation_run.
Qed.



(** ** The logger-class guard on the other paths *)

(** X5.  When the original accessor raises, the patched accessor raises the
    same exception and line 35 is not reached: the default logger class,
    like the rest of the world, is what the original accessor left, so a
    class it installed before raising stays installed. *)
Theorem guard_skips_restore_on_exception (Logger : Type)
    (orig_getLogger : list PyVal → M Logger) args w e w1 :
  orig_getLogger args w = (Raise e, w1) →
  monkey_patched_getLogger Logger orig_getLogger args w = (Raise e, w1)
  ∧ getLoggerClass (snd (monkey_patched_getLogger Logger orig_getLogger args w))
    = getLoggerClass w1.
Proof.
  intros Horig. unfold monkey_patched_getLogger, bind, gets.
  by rewrite Horig.
Qed.

Lemma guard_skips_restore_on_exception_witness :
  slogging_getLogger [VInt 7] (sample_world [])
  = (Raise TypeError, setLoggerClass SLogger (sample_world []))
  ∧ getLoggerClass
      (snd (monkey_patched_getLogger string slogging_getLogger [VInt 7]
              (sample_world [])))
    = SLogger.
Proof.
  split; [reflexivity|].
  exact (proj2 (guard_skips_restore_on_exception string slogging_getLogger [VInt 7]
                  (sample_world []) TypeError
                  (setLoggerClass SLogger (sample_world [])) eq_refl)).
Defined.

(** X6.  The patch is invisible for an accessor that leaves the default
    logger class alone: result and world of the patched call are those of
    the original call, whether it returns or raises. *)
Theorem guard_transparent (Logger : Type)
    (orig_getLogger : list PyVal → M Logger) args w :
  getLoggerClass (snd (orig_getLogger args w)) = getLoggerClass w →
  monkey_patched_getLogger Logger orig_getLogger args w = orig_getLogger args w.
Proof.
  intros Hsame. unfold monkey_patched_getLogger, bind, gets, modify, ret.
  destruct (orig_getLogger args w) as [[result|e] w1]; [|done].
  cbn in Hsame. f_equal. rewrite <- Hsame.
  by destruct w1.
Qed.

Lemma guard_transparent_witness :
  getLoggerClass (snd (ret (A := string) "root" (sample_world [])))
  = getLoggerClass (sample_world [])
  ∧ monkey_patched_getLogger string (λ _, ret "root") [] (sample_world [])
    = (Ok "root", sample_world []).
Proof.
  split; [reflexivity|].
  exact (guard_transparent string (λ _, ret "root") [] (sample_world []) eq_refl).
Defined.

(** ** The body of [start] when the store does not load *)

(** X7.  Without the version flag, a store that does not load stops [start]
    with the error of [AppConfig.load_config]: the run has called
    [freeze_support()], built the descriptor and tried the load, and nothing
    else; no worker is delegated to and no node is built, whatever [-m]
    says.  The three placeholders are already registered at that point and
    the argument vector is untouched. *)
Theorem load_failure_stops_start env a w :
  a_version a = false →
  load_config env (a_datadir a) = None →
  fst (start env a w) = Raise ConfigLoadError
  ∧ events_of (start env a) w
    = [EFreezeSupport; ENewConfigDesc; ELoadConfig (a_datadir a)]
  ∧ sys_modules (snd (start env a w))
    = with_placeholders (delete reactor_module (sys_modules w))
  ∧ sys_argv (snd (start env a w)) = sys_argv w.
Proof.
  intros Hv Hload. split; [by rewrite (start_load_fail _ _ _ Hv Hload)|].
  split.
  { eapply events_of_run; [by apply start_load_fail | reflexivity]. }
  by rewrite (start_load_fail _ _ _ Hv Hload).
Qed.

Lemma load_failure_stops_start_witness :
  (a_version (mkStartArgs true true "/corrupt" None None [] false None VNone false
                (Some worker_sentinel) None) = false
   ∧ load_config sample_env "/corrupt" = None)
  ∧ fst (start sample_env
           (mkStartArgs true true "/corrupt" None None [] false None VNone false
              (Some worker_sentinel) None) worker_world)
    = Raise ConfigLoadError.
Proof.
  split; [split; reflexivity|].
  exact (proj1 (load_failure_stops_start sample_env
                  (mkStartArgs true true "/corrupt" None None [] false None VNone false
                     (Some worker_sentinel) None) worker_world eq_refl eq_refl)).
Defined.

(** ** The headless branch *)

(** X8.  A headless run (no version flag, [-m] not the sentinel, store
    loaded) returns [None] after these calls, in this order: the prologue
    and the configuration work; [config_logging] with the data directory
    and the log level; [install_reactor]; the three version lines, the
    protocol line showing the protocol id in force; the three platform
    lines; the construction of the node, which receives the data directory,
    the resolved descriptor, [payments] as [transaction_system], [peer] as
    [peers], [monitor] as [use_monitor] and the three geth values; and
    [node.start()] last. *)
Theorem headless_run_sequence env a w app_config :
  a_version a = false →
  load_config env (a_datadir a) = Some app_config →
  a_m a ≠ Some worker_sentinel →
  fst (start env a w) = Ok VNone
  ∧ events_of (start env a) w =
      [EFreezeSupport; ENewConfigDesc; ELoadConfig (a_datadir a); EInitFromAppConfig;
       EConfigLogging (a_datadir a) (a_loglevel a);
       EInstallReactor;
       ELogInfo "GOLEM Version: %s" [VStr (golem_version env)];
       ELogInfo "Protocol Version: %s" [VInt (protocol_id w)];
       ELogInfo "golem_messages Version: %s" [VStr (golem_messages_version env)];
       ELogInfo "system: %s, release: %s, version: %s, machine: %s"
         [VStr (platform_system env); VStr (platform_release env);
          VStr (platform_version env); VStr (platform_machine env)];
       ELogInfo "cpu: %s %s, %s cores" [cpu_vendor_id env; cpu_brand env; cpu_count env];
       ELogInfo "memory: %s, swap: %s"
         [VStr (naturalsize env (mem_total env));
          VStr (naturalsize env (swap_total env))];
       ENode {| n_datadir := a_datadir a;
                n_config_desc := overlay a (persisted_desc env app_config);
                n_transaction_system := a_payments a;
                n_peers := a_peer a;
                n_use_monitor := a_monitor a;
                n_start_geth := a_start_geth a;
                n_start_geth_port := a_start_geth_port a;
                n_geth_address := a_geth_address a |};
       ENodeStart].
Proof.
  intros Hv Hload Hm.
  split; [by rewrite (start_headless_run _ _ _ _ Hv Hload Hm)|].
  eapply events_of_run; [by apply (start_headless_run env a w app_config)|].
  reflexivity.
Qed.

Lemma headless_run_sequence_witness :
  (a_version headless_args = false
   ∧ load_config sample_env (a_datadir headless_args) = Some sample_config
   ∧ a_m headless_args ≠ Some worker_sentinel)
  ∧ fst (start sample_env headless_args (sample_world ["golemapp"])) = Ok VNone.
Proof.
  split; [split; [reflexivity | split; [reflexivity | discriminate]]|].
  exact (proj1 (headless_run_sequence sample_env headless_args
                  (sample_world ["golemapp"]) sample_config
                  eq_refl eq_refl ltac:(discriminate))).
Defined.

(** ** What [start] leaves alone *)

(** X10.  [sys.argv] is rewritten on the worker branch only: with the
    version flag, or with [-m] absent or different from the sentinel,
    [start] ends with the argument vector it began with, whether the store
    loads or not. *)
Theorem start_keeps_argv_off_worker_branch env a w :
  a_version a = true ∨ a_m a ≠ Some worker_sentinel →
  sys_argv (snd (start env a w)) = sys_argv w.
Proof.
  intros Hbranch. destruct (a_version a) eqn:Hv.
  { by rewrite (start_version_run _ _ _ Hv). }
  destruct Hbranch as [|Hm]; [done|].
  destruct (load_config env (a_datadir a)) as [app_config|] eqn:Hload.
  - by rewrite (start_headless_run _ _ _ _ Hv Hload Hm).
  - by rewrite (start_load_fail _ _ _ Hv Hload).
Qed.

Lemma start_keeps_argv_off_worker_branch_witness :
  (a_version headless_args = true ∨ a_m headless_args ≠ Some worker_sentinel)
  ∧ sys_argv (snd (start sample_env headless_args worker_world))
    = ["golemapp"; "-m"; "crossbar.worker.process"; "-u"; "extra"].
Proof.
  split; [right; discriminate|].
  etransitivity.
  - apply (start_keeps_argv_off_worker_branch sample_env headless_args worker_world).
    right. discriminate.
  - reflexivity.
Defined.

(** ** The worker branch from end to end *)

(** C2, as the code has it.  On the worker branch (version flag off, [-m]
    the sentinel) the bootstrap does not go straight to the delegation.
    It first registers the three placeholders and does its configuration
    work: it builds a descriptor, loads the persisted store, initialises
    the descriptor from it and applies the overlay of lines 116-120, in
    this order and directly after [freeze_support()].  Only then does it
    call [start_crossbar_worker], which on an argument vector that holds
    [-m] and a value removes the first [-m] with its value and the first
    [-u], imports [crossbar.worker.process] and calls its [run]; [start]
    then returns [None].  When the import gives no module, [start] raises
    with the vector already rewritten and [run] is not called.  The three
    placeholders are still registered when [start] ends, and the run
    configures no logging, installs no reactor, logs no diagnostics and
    builds no node. *)
Theorem worker_branch_resolves_config_first env a w app_config pre value post :
  a_version a = false →
  a_m a = Some worker_sentinel →
  load_config env (a_datadir a) = Some app_config →
  sys_argv w = pre ++ "-m" :: value :: post →
  "-m" ∉ pre →
  events_of (start env a) w
  = [EFreezeSupport; ENewConfigDesc; ELoadConfig (a_datadir a); EInitFromAppConfig;
     EStartCrossbarWorker worker_sentinel; EImportModule worker_sentinel]
    ++ match import_module env worker_sentinel with
       | Some md => [ERun md]
       | None => []
       end
  ∧ (∃ w1, start env a w
           = (let* config_desc := resolve_config env a in
              call (EStartCrossbarWorker worker_sentinel) >>>
              start_crossbar_worker env worker_sentinel >>>
              ret VNone) w1
           ∧ (∀ name, name ∈ placeholder_names → sys_modules w1 !! name = Some None)
           ∧ sys_argv w1 = sys_argv w
           ∧ fst (resolve_config env a w1)
             = Ok (overlay a (persisted_desc env app_config)))
  ∧ fst (start env a w)
    = match import_module env worker_sentinel with
      | Some _ => Ok VNone
      | None => Raise (ImportError worker_sentinel)
      end
  ∧ sys_argv (snd (start env a w)) = without_first "-u" (pre ++ post)
  ∧ (∀ name, name ∈ placeholder_names →
             sys_modules (snd (start env a w)) !! name = Some None)
  ∧ Forall (λ e, is_node_event e = false ∧ is_log_event e = false)
      (events_of (start env a) w).
Proof.
  intros Hv Hm Hload Hargv Hpre.
  pose proof (start_worker_run env a w app_config Hv Hload Hm) as Hstart.
  pose proof (start_crossbar_worker_run env worker_sentinel pre value post
                (set_modules (λ m, with_placeholders (delete reactor_module m))
                   (record_all
                      (EFreezeSupport :: resolve_events a ++
                       [EStartCrossbarWorker worker_sentinel]) w))
                Hargv Hpre) as Hworker.
  assert (∀ (modules : gmap string (option PyModule)) name,
            name ∈ placeholder_names → with_placeholders modules !! name = Some None)
    as Hplaced.
  { intros modules name Hin. unfold with_placeholders, placeholder_names in *.
    rewrite !elem_of_cons, elem_of_nil in Hin.
    destruct Hin as [->|[->|[->|[]]]]; by simplify_map_eq. }
  assert (events_of (start env a) w
          = [EFreezeSupport; ENewConfigDesc; ELoadConfig (a_datadir a);
             EInitFromAppConfig; EStartCrossbarWorker worker_sentinel;
             EImportModule worker_sentinel]
            ++ match import_module env worker_sentinel with
               | Some md => [ERun md]
               | None => []
               end) as Hev.
  { unfold events_of. rewrite Hstart. unfold bind at 1. rewrite Hworker.
    destruct (import_module env worker_sentinel) as [md|];
      unfold after_delegation; cbn; rewrite <- !app_assoc; apply drop_app_length. }
  split; [exact Hev|]. split.
  { exists (set_modules with_placeholders (after_prologue w)).
    split; [| split; [| split]].
    - rewrite start_prologue. unfold start_dispatch. rewrite Hv, Hm.
      unfold bind at 1. rewrite pyinstaller_workarounds_run.
      by rewrite bool_decide_eq_true_2.
    - intros name Hin. by apply Hplaced.
    - reflexivity.
    - by rewrite (resolve_config_run _ _ _ _ Hload). }
  split.
  { rewrite Hstart. unfold bind at 1. rewrite Hworker.
    by destruct (import_module env worker_sentinel). }
  split.
  { rewrite Hstart. unfold bind at 1. rewrite Hworker.
    by destruct (import_module env worker_sentinel). }
  split.
  { intros name Hin.
    rewrite start_modules_lookup, Hv; [by apply Hplaced|].
    unfold placeholder_names in Hin. rewrite !elem_of_cons, elem_of_nil in Hin.
    destruct Hin as [->|[->|[->|[]]]]; discriminate. }
  rewrite Hev.
  repeat (apply Forall_cons; split; [done|]).
  destruct (import_module env worker_sentinel); by repeat constructor.
Qed.

Lemma worker_branch_resolves_config_first_witness :
  (a_version worker_args = false
   ∧ a_m worker_args = Some worker_sentinel
   ∧ load_config sample_env (a_datadir worker_args) = Some sample_config
   ∧ sys_argv worker_world
     = ["golemapp"] ++ "-m" :: "crossbar.worker.process" :: ["-u"; "extra"]
   ∧ "-m" ∉ ["golemapp"])
  ∧ sys_argv (snd (start sample_env worker_args worker_world)) = ["golemapp"; "extra"].
Proof.
  assert ("-m" ∉ ["golemapp"]) as Hpre.
  { rewrite not_elem_of_cons. split; [done | apply not_elem_of_nil]. }
  split; [repeat (split; [reflexivity|]); exact Hpre|].
  destruct (worker_branch_resolves_config_first sample_env worker_args worker_world
              sample_config ["golemapp"] "crossbar.worker.process" ["-u"; "extra"]
              eq_refl eq_refl eq_refl eq_refl Hpre)
    as (_ & _ & _ & Hargv & _).
  etransitivity; [exact Hargv | reflexivity].
Defined.

(** ** What [start] returns *)

Lemma then_ret_result {A} (m : M A) (v v' : PyVal) w :
  fst ((m >>> ret v) w) = Ok v' → v' = v.
Proof.
  unfold bind, ret. destruct (m w) as [[x|e] w1]; cbn; [|done].
  by intros [= <-].
Qed.

(** X12.  Whenever [start] returns, it returns 0 on the version branch and
    [None] on the two others, so that the command ends with exit status 0
    in every mode. *)
Theorem start_return_value env a w v :
  fst (start env a w) = Ok v →
  v = (if a_version a then VInt 0 else VNone)
  ∧ exit_code (fst (start env a w)) = 0%Z.
Proof.
  intros Hret. split; [|by rewrite Hret].
  destruct (a_version a) eqn:Hv.
  { rewrite (start_version_run _ _ _ Hv) in Hret. by injection Hret as <-. }
  destruct (load_config env (a_datadir a)) as [app_config|] eqn:Hload.
  2: { by rewrite (start_load_fail _ _ _ Hv Hload) in Hret. }
  rewrite (start_resolved _ _ _ _ Hv Hload) in Hret. cbn zeta in Hret.
  destruct (a_m a) as [m|]; [case_bool_decide|].
  - unfold bind at 1 in Hret. cbn [call] in Hret.
    by apply then_ret_result in Hret.
  - by apply then_ret_result in Hret.
  - by apply then_ret_result in Hret.
Qed.

Lemma start_return_value_witness :
  fst (start sample_env headless_args (sample_world ["golemapp"])) = Ok VNone
  ∧ exit_code (fst (start sample_env headless_args (sample_world ["golemapp"]))) = 0%Z.
Proof.
  assert (fst (start sample_env headless_args (sample_world ["golemapp"])) = Ok VNone)
    as Hret by (vm_compute; reflexivity).
  split; [exact Hret|].
  exact (proj2 (start_return_value sample_env headless_args (sample_world ["golemapp"])
                  VNone Hret)).
Defined.

(** ** What a parse hands to [start] *)

Lemma param_name_inj p q : param_name p = param_name q → p = q.
Proof. destruct p, q; simpl; intros H; first [reflexivity | discriminate H]. Qed.

Lemma declaration_order_NoDup : NoDup declaration_order.
Proof. apply (bool_decide_unpack _). by vm_compute. Qed.

Lemma processing_order_NoDup invocation_order :
  NoDup (iter_params_for_processing invocation_order declaration_order).
Proof.
  unfold iter_params_for_processing. rewrite sorted_by_perm.
  apply declaration_order_NoDup.
Qed.

Lemma processing_order_all invocation_order p :
  p ∈ iter_params_for_processing invocation_order declaration_order.
Proof.
  unfold iter_params_for_processing. rewrite sorted_by_perm.
  destruct p; apply (bool_decide_unpack _); by vm_compute.
Qed.

(** The keywords [start] is declared with are the names of the options
    that expose their value. *)
Lemma exposed_names name :
  (∃ p, expose_value p = true ∧ param_name p = name) ↔ name ∈ start_keywords.
Proof.
  split.
  - intros (p & Hexp & <-).
    destruct p; first [discriminate Hexp | apply (bool_decide_unpack _); by vm_compute].
  - unfold start_keywords. rewrite !elem_of_cons, elem_of_nil.
    intros [->|[->|[->|[->|[->|[->|[->|[->|[->|[->|[->|[->|[]]]]]]]]]]]]].
    + by exists P_payments.
    + by exists P_monitor.
    + by exists P_datadir.
    + by exists P_node_address.
    + by exists P_rpc_address.
    + by exists P_peer.
    + by exists P_start_geth.
    + by exists P_start_geth_port.
    + by exists P_geth_address.
    + by exists P_version.
    + by exists P_m.
    + by exists P_loglevel.
Qed.

Section ParsedKeywords.
Variable env : Env.
Variable opts : list (Param * Raw).

Lemma process_params_step p l params w kw :
  fst (process_params env opts (p :: l) params w) = Ok kw →
  ∃ params1 w1,
    handle_parse_result env opts p params w = (Ok params1, w1)
    ∧ fst (process_params env opts l params1 w1) = Ok kw.
Proof.
  cbn [process_params]. unfold bind.
  destruct (handle_parse_result env opts p params w) as [[params1|e] w1]; [|done].
  intros Hkw. by exists params1, w1.
Qed.

Lemma handle_parse_result_ok p params w params1 w1 :
  handle_parse_result env opts p params w = (Ok params1, w1) →
  ∃ value, params1 = (if expose_value p then <[param_name p := value]> params
                      else params)
           ∧ (callback_of env p = None →
              process_value env p (supplied opts p) = Ok value)
           ∧ (p = P_start_geth_port →
              ∃ v0, process_value env p (supplied opts p) = Ok v0
                    ∧ fst (enforce_start_geth_used params v0
                             (record (ECallback p (protocol_id w)) w)) = Ok value).
Proof.
  intros Hrun. pose proof (handle_parse_result_inv env opts p params w) as Hinv.
  by rewrite Hrun in Hinv.
Qed.

Lemma process_params_keys l params w kw name :
  fst (process_params env opts l params w) = Ok kw →
  is_Some (kw !! name)
  ↔ is_Some (params !! name)
    ∨ ∃ p, p ∈ l ∧ expose_value p = true ∧ param_name p = name.
Proof.
  revert params w. induction l as [|p l IH]; intros params w Hkw.
  - cbn in Hkw. injection Hkw as <-. split; [by left|].
    intros [H|(p & Hp & _)]; [done | by apply elem_of_nil in Hp].
  - destruct (process_params_step _ _ _ _ _ Hkw) as (params1 & w1 & Hrun & Hrest).
    destruct (handle_parse_result_ok _ _ _ _ _ Hrun) as (value & -> & _).
    rewrite (IH _ _ Hrest). clear IH Hkw Hrest Hrun.
    destruct (expose_value p) eqn:Hexp.
    + rewrite lookup_insert_is_Some. split.
      * intros [[<-|[_ H]]|(q & Hq & Hqe & Hqn)].
        -- right. exists p. split; [by left | done].
        -- by left.
        -- right. exists q. split; [by right | done].
      * intros [H|(q & Hq & Hqe & Hqn)].
        -- left. destruct (decide (param_name p = name)); [by left | by right].
        -- apply elem_of_cons in Hq as [->|Hq]; [by left; left|].
           right. by exists q.
    + split.
      * intros [H|(q & Hq & Hqe & Hqn)]; [by left|].
        right. exists q. split; [by right | done].
      * intros [H|(q & Hq & Hqe & Hqn)]; [by left|].
        apply elem_of_cons in Hq as [->|Hq]; [congruence|].
        right. by exists q.
Qed.

(** The value stored for a parameter survives the parameters processed
    after it. *)
Lemma process_params_other l params w kw p :
  p ∉ l →
  fst (process_params env opts l params w) = Ok kw →
  kw !! param_name p = params !! param_name p.
Proof.
  revert params w. induction l as [|q l IH]; intros params w Hp Hkw.
  - cbn in Hkw. by injection Hkw as <-.
  - apply not_elem_of_cons in Hp as [Hpq Hp].
    destruct (process_params_step _ _ _ _ _ Hkw) as (params1 & w1 & Hrun & Hrest).
    destruct (handle_parse_result_ok _ _ _ _ _ Hrun) as (value & -> & _).
    rewrite (IH _ _ Hp Hrest).
    destruct (expose_value q); [|done].
    apply lookup_insert_ne. intros Heq. apply Hpq. symmetry. by apply param_name_inj.
Qed.

(** An option without callback that exposes its value reaches [start]
    with its converted value. *)
Lemma process_params_plain l params w kw p :
  NoDup l →
  p ∈ l →
  callback_of env p = None →
  expose_value p = true →
  fst (process_params env opts l params w) = Ok kw →
  ∃ value, process_value env p (supplied opts p) = Ok value
           ∧ kw !! param_name p = Some value.
Proof.
  revert params w. induction l as [|q l IH]; intros params w Hnd Hin Hcb Hexp Hkw.
  { by apply elem_of_nil in Hin. }
  apply NoDup_cons in Hnd as [Hq Hnd].
  destruct (process_params_step _ _ _ _ _ Hkw) as (params1 & w1 & Hrun & Hrest).
  destruct (decide (q = p)) as [->|Hne].
  - destruct (handle_parse_result_ok _ _ _ _ _ Hrun) as (value & -> & Hval & _).
    exists value. split; [by apply Hval|].
    rewrite (process_params_other _ _ _ _ _ Hq Hrest), Hexp.
    apply lookup_insert_eq.
  - apply elem_of_cons in Hin as [->|Hin]; [done|].
    by apply (IH params1 w1).
Qed.

Lemma parse_plain w kw p :
  callback_of env p = None →
  expose_value p = true →
  fst (parse env opts w) = Ok kw →
  ∃ value, process_value env p (supplied opts p) = Ok value
           ∧ kw !! param_name p = Some value.
Proof.
  intros Hcb Hexp Hkw.
  apply (process_params_plain
           (iter_params_for_processing (opts.*1) declaration_order) ∅ w kw p).
  - apply processing_order_NoDup.
  - apply processing_order_all.
  - exact Hcb.
  - exact Hexp.
  - exact Hkw.
Qed.
End ParsedKeywords.

Lemma parsed_or_empty_ok r : is_ok r = true → r = Ok (parsed_or_empty r).
Proof. by destruct r. Qed.

Lemma default_is_some {A} (d : A) (o : option A) :
  is_some o = true → o = Some (default d o).
Proof. by destruct o. Qed.

(** The sample command lines parse. *)
Lemma empty_line_parses :
  fst (parse sample_env [] (sample_world [])) = Ok empty_line_kwargs.
Proof. apply parsed_or_empty_ok. vm_compute. reflexivity. Qed.

Lemma version_line_parses :
  fst (parse sample_env [(P_version, RFlag true)] (sample_world []))
  = Ok version_kwargs.
Proof. apply parsed_or_empty_ok. vm_compute. reflexivity. Qed.

(** X13.  A parse that succeeds hands [start] exactly the twelve keywords
    of its signature: every option that exposes its value supplies one of
    them, and the options declared with [expose_value=False], the protocol
    id among them, supply none. *)
Theorem parse_supplies_start_keywords env opts w kw name :
  fst (parse env opts w) = Ok kw →
  is_Some (kw !! name) ↔ name ∈ start_keywords.
Proof.
  intros Hkw. unfold parse in Hkw.
  rewrite (process_params_keys env opts _ _ _ _ name Hkw), <- exposed_names.
  split.
  - intros [H|(p & _ & Hexp & Hname)]; [|by exists p].
    rewrite lookup_empty in H. by destruct H.
  - intros (p & Hexp & Hname). right. exists p.
    split; [apply processing_order_all | done].
Qed.

Lemma parse_supplies_start_keywords_witness :
  fst (parse sample_env [] (sample_world [])) = Ok empty_line_kwargs
  ∧ (is_Some (empty_line_kwargs !! "protocol_id") ↔ "protocol_id" ∈ start_keywords).
Proof.
  pose proof empty_line_parses as Hkw.
  split; [exact Hkw|].
  exact (parse_supplies_start_keywords sample_env [] (sample_world [])
           empty_line_kwargs "protocol_id" Hkw).
Defined.

(** X14.  The defaults of the decorators: in a parse that succeeds, an
    option that the command line does not give reaches [start] with
    [payments=True], [monitor=True], [start_geth=False], [version=False],
    [m=None] and [loglevel=None]. *)
Theorem parse_defaults env opts w kw :
  fst (parse env opts w) = Ok kw →
  (supplied opts P_payments = [] → kw !! "payments" = Some (VBool true))
  ∧ (supplied opts P_monitor = [] → kw !! "monitor" = Some (VBool true))
  ∧ (supplied opts P_start_geth = [] → kw !! "start_geth" = Some (VBool false))
  ∧ (supplied opts P_version = [] → kw !! "version" = Some (VBool false))
  ∧ (supplied opts P_m = [] → kw !! "m" = Some VNone)
  ∧ (supplied opts P_loglevel = [] → kw !! "loglevel" = Some VNone).
Proof.
  intros Hkw.
  repeat split; intros Habsent.
  - destruct (parse_plain env opts w kw P_payments eq_refl eq_refl Hkw)
      as (v & Hv & Hlook).
    cbn [process_value] in Hv. unfold flag_value in Hv. rewrite Habsent in Hv.
    injection Hv as <-. exact Hlook.
  - destruct (parse_plain env opts w kw P_monitor eq_refl eq_refl Hkw)
      as (v & Hv & Hlook).
    cbn [process_value] in Hv. unfold flag_value in Hv. rewrite Habsent in Hv.
    injection Hv as <-. exact Hlook.
  - destruct (parse_plain env opts w kw P_start_geth eq_refl eq_refl Hkw)
      as (v & Hv & Hlook).
    cbn [process_value] in Hv. unfold flag_value in Hv. rewrite Habsent in Hv.
    injection Hv as <-. exact Hlook.
  - destruct (parse_plain env opts w kw P_version eq_refl eq_refl Hkw)
      as (v & Hv & Hlook).
    cbn [process_value] in Hv. unfold flag_value in Hv. rewrite Habsent in Hv.
    injection Hv as <-. exact Hlook.
  - destruct (parse_plain env opts w kw P_m eq_refl eq_refl Hkw)
      as (v & Hv & Hlook).
    cbn [process_value] in Hv. unfold text_value in Hv. rewrite Habsent in Hv.
    injection Hv as <-. exact Hlook.
  - destruct (parse_plain env opts w kw P_loglevel eq_refl eq_refl Hkw)
      as (v & Hv & Hlook).
    cbn [process_value] in Hv. unfold choice_value in Hv. rewrite Habsent in Hv.
    injection Hv as <-. exact Hlook.
Qed.

Lemma parse_defaults_witness :
  fst (parse sample_env [] (sample_world [])) = Ok empty_line_kwargs
  ∧ empty_line_kwargs !! "payments" = Some (VBool true).
Proof.
  pose proof empty_line_parses as Hkw.
  split; [exact Hkw|].
  exact (proj1 (parse_defaults sample_env [] (sample_world []) empty_line_kwargs Hkw)
           eq_refl).
Defined.

(** X15.  What the switches and [-m] give [start] in a parse that succeeds:
    the last [--payments]/[--nopayments] and [--monitor]/[--nomonitor]
    decide [payments] and [monitor]; [--version] and [--start-geth] given
    as switches make [version] and [start_geth] true; [-m] passes its text
    on unchanged; the [loglevel] that arrives is one of CRITICAL, ERROR,
    WARNING, INFO and DEBUG. *)
Theorem parse_given_values env opts w kw :
  fst (parse env opts w) = Ok kw →
  (∀ b, last (supplied opts P_payments) = Some (RFlag b) →
        kw !! "payments" = Some (VBool b))
  ∧ (∀ b, last (supplied opts P_monitor) = Some (RFlag b) →
          kw !! "monitor" = Some (VBool b))
  ∧ (∀ b, last (supplied opts P_version) = Some (RFlag b) →
          kw !! "version" = Some (VBool b))
  ∧ (∀ b, last (supplied opts P_start_geth) = Some (RFlag b) →
          kw !! "start_geth" = Some (VBool b))
  ∧ (∀ s, last (supplied opts P_m) = Some (RText s) → kw !! "m" = Some (VStr s))
  ∧ (∀ s, last (supplied opts P_loglevel) = Some (RText s) →
          kw !! "loglevel" = Some (VStr s) ∧ s ∈ loglevel_choices).
Proof.
  intros Hkw.
  repeat split.
  - intros b Hgiven.
    destruct (parse_plain env opts w kw P_payments eq_refl eq_refl Hkw)
      as (v & Hv & Hlook).
    cbn [process_value] in Hv. unfold flag_value in Hv. rewrite Hgiven in Hv.
    injection Hv as <-. exact Hlook.
  - intros b Hgiven.
    destruct (parse_plain env opts w kw P_monitor eq_refl eq_refl Hkw)
      as (v & Hv & Hlook).
    cbn [process_value] in Hv. unfold flag_value in Hv. rewrite Hgiven in Hv.
    injection Hv as <-. exact Hlook.
  - intros b Hgiven.
    destruct (parse_plain env opts w kw P_version eq_refl eq_refl Hkw)
      as (v & Hv & Hlook).
    cbn [process_value] in Hv. unfold flag_value in Hv. rewrite Hgiven in Hv.
    injection Hv as <-. exact Hlook.
  - intros b Hgiven.
    destruct (parse_plain env opts w kw P_start_geth eq_refl eq_refl Hkw)
      as (v & Hv & Hlook).
    cbn [process_value] in Hv. unfold flag_value in Hv. rewrite Hgiven in Hv.
    injection Hv as <-. exact Hlook.
  - intros s Hgiven.
    destruct (parse_plain env opts w kw P_m eq_refl eq_refl Hkw)
      as (v & Hv & Hlook).
    cbn [process_value] in Hv. unfold text_value in Hv. rewrite Hgiven in Hv.
    injection Hv as <-. exact Hlook.
  - destruct (parse_plain env opts w kw P_loglevel eq_refl eq_refl Hkw)
      as (v & Hv & Hlook).
    cbn [process_value] in Hv. unfold choice_value in Hv. rewrite H in Hv.
    case_bool_decide; [|done]. injection Hv as <-. exact Hlook.
  - destruct (parse_plain env opts w kw P_loglevel eq_refl eq_refl Hkw)
      as (v & Hv & Hlook).
    cbn [process_value] in Hv. unfold choice_value in Hv. rewrite H in Hv.
    by case_bool_decide.
Qed.

Lemma parse_given_values_witness :
  fst (parse sample_env [(P_version, RFlag true)] (sample_world []))
  = Ok version_kwargs
  ∧ version_kwargs !! "version" = Some (VBool true).
Proof.
  pose proof version_line_parses as Hkw.
  split; [exact Hkw|].
  destruct (parse_given_values sample_env [(P_version, RFlag true)] (sample_world [])
              version_kwargs Hkw) as (_ & _ & Hversion & _).
  exact (Hversion true eq_refl).
Defined.

(** ** Values the option types reject *)

Section BadValues.
Variable env : Env.
Variable opts : list (Param * Raw).

Lemma handle_parse_result_bad_value p params w e :
  process_value env p (supplied opts p) = Raise e →
  handle_parse_result env opts p params w = (Raise e, w).
Proof.
  intros Hbad. unfold handle_parse_result, bind at 1, lift_res.
  by rewrite Hbad.
Qed.

Lemma process_params_bad_value l params w p e :
  p ∈ l →
  process_value env p (supplied opts p) = Raise e →
  ∃ e', fst (process_params env opts l params w) = Raise e'.
Proof.
  intros Hin Hbad. revert params w.
  induction l as [|q l IH]; intros params w.
  { by apply elem_of_nil in Hin. }
  cbn [process_params]. unfold bind.
  destruct (handle_parse_result env opts q params w) as [[params1|e1] w1] eqn:Hrun;
    [|by eexists].
  apply elem_of_cons in Hin as [->|Hin].
  - by rewrite (handle_parse_result_bad_value _ _ _ _ Hbad) in Hrun.
  - by apply IH.
Qed.

(** A value its option type rejects ends the command with a usage error
    before [start] is called. *)
Lemma main_rejects_bad_value w p e :
  process_value env p (supplied opts p) = Raise e →
  ∃ msg,
    fst (main env opts w) = Raise (UsageError msg)
    ∧ exit_code (fst (main env opts w)) = 2%Z
    ∧ Forall is_callback (events_of (main env opts) w).
Proof.
  intros Hbad.
  destruct (process_params_bad_value
              (iter_params_for_processing (opts.*1) declaration_order) ∅ w p e
              (processing_order_all _ p) Hbad) as [e' He'].
  destruct (process_params_error env opts _ _ _ _ He') as [msg ->].
  exists msg.
  rewrite (main_stops_with_parse env opts w _ He'),
    (events_of_main_stopped env opts w _ He').
  split; [done|]. split; [done|].
  apply emits_events_of, parse_emits.
Qed.
End BadValues.

(** X16.  A [--loglevel] outside CRITICAL, ERROR, WARNING, INFO and DEBUG
    ends the command with a usage error, exit status 2: [start] is not
    called, so the run makes no call besides option callbacks. *)
Theorem unknown_loglevel_rejected env opts w s :
  last (supplied opts P_loglevel) = Some (RText s) →
  s ∉ loglevel_choices →
  ∃ msg,
    fst (main env opts w) = Raise (UsageError msg)
    ∧ exit_code (fst (main env opts w)) = 2%Z
    ∧ Forall is_callback (events_of (main env opts) w).
Proof.
  intros Hgiven Hunknown.
  apply (main_rejects_bad_value env opts w P_loglevel
           (UsageError ("Invalid value for " +:+ param_name P_loglevel))).
  cbn [process_value]. unfold choice_value. rewrite Hgiven.
  by rewrite bool_decide_eq_false_2.
Qed.

Lemma unknown_loglevel_rejected_witness :
  (last (supplied bad_loglevel_opts P_loglevel) = Some (RText "TRACE")
   ∧ "TRACE" ∉ loglevel_choices)
  ∧ ∃ msg, fst (main sample_env bad_loglevel_opts (sample_world []))
           = Raise (UsageError msg).
Proof.
  assert ("TRACE" ∉ loglevel_choices) as Hunknown.
  { apply (bool_decide_unpack _). by vm_compute. }
  split; [split; [reflexivity | exact Hunknown]|].
  destruct (unknown_loglevel_rejected sample_env bad_loglevel_opts (sample_world [])
              "TRACE" eq_refl Hunknown) as (msg & Hmsg & _).
  exists msg. exact Hmsg.
Defined.

(** X17.  A [--protocol_id] or a [--start-geth-port] whose text is not an
    integer ends the command with a usage error, exit status 2, before
    [start] is called. *)
Theorem non_integer_rejected env opts w p s :
  p = P_protocol_id ∨ p = P_start_geth_port →
  last (supplied opts p) = Some (RText s) →
  convert_int env s = None →
  ∃ msg,
    fst (main env opts w) = Raise (UsageError msg)
    ∧ exit_code (fst (main env opts w)) = 2%Z
    ∧ Forall is_callback (events_of (main env opts) w).
Proof.
  intros Hp Hgiven Hbad.
  apply (main_rejects_bad_value env opts w p
           (UsageError ("Invalid value for " +:+ param_name p))).
  destruct Hp as [-> | ->]; cbn [process_value]; unfold int_value;
    by rewrite Hgiven, Hbad.
Qed.

Lemma non_integer_rejected_witness :
  (last (supplied [(P_protocol_id, RText "thirty")] P_protocol_id)
   = Some (RText "thirty")
   ∧ convert_int sample_env "thirty" = None)
  ∧ ∃ msg, fst (main sample_env [(P_protocol_id, RText "thirty")] (sample_world []))
           = Raise (UsageError msg).
Proof.
  split; [split; reflexivity|].
  destruct (non_integer_rejected sample_env [(P_protocol_id, RText "thirty")]
              (sample_world []) P_protocol_id "thirty"
              (or_introl eq_refl) eq_refl eq_refl) as (msg & Hmsg & _).
  exists msg. exact Hmsg.
Defined.

(** ** The port check when [--start-geth] is given *)

Section PortAccepted.
Variable env : Env.
Variable opts : list (Param * Raw).

Lemma texts_bad p given e :
  texts p given = Raise e → e = UsageError ("Invalid value for " +:+ param_name p).
Proof.
  induction given as [|[b|s] given IH]; cbn [texts]; [done| |].
  - by intros [= <-].
  - destruct (texts p given); [done|]. intros [= <-]. by apply IH.
Qed.

(** Every rejection by an option type carries the name of its option. *)
Lemma process_value_bad p given e :
  process_value env p given = Raise e →
  e = UsageError ("Invalid value for " +:+ param_name p).
Proof.
  destruct p; cbn [process_value];
    unfold flag_value, text_value, int_value, path_value, choice_value, bad_parameter;
    try (destruct (texts _ given) eqn:Ht;
         [done | intros [= <-]; by eapply texts_bad]);
    repeat case_match; try done; by intros [= <-].
Qed.

Lemma invalid_value_is_not_port_check {A} name :
  @Raise A (UsageError ("Invalid value for " +:+ name))
  ≠ Raise (UsageError start_geth_message).
Proof. discriminate. Qed.

(** One parameter never raises the error of the port check while
    [start_geth] is resolved to true. *)
Lemma handle_parse_result_no_port_error p params w :
  params !! "start_geth" = Some (VBool true) ∨ p ≠ P_start_geth_port →
  fst (handle_parse_result env opts p params w) ≠ Raise (UsageError start_geth_message).
Proof.
  intros Hsafe. unfold handle_parse_result, bind at 1, lift_res.
  destruct (process_value env p (supplied opts p)) as [v0|e] eqn:Hpv; cbn [fst snd].
  2: { rewrite (process_value_bad _ _ _ Hpv). apply invalid_value_is_not_port_check. }
  unfold bind at 1.
  destruct (callback_of env p) as [callback|] eqn:Hcb; [|done].
  unfold bind at 1, gets at 1. unfold bind at 1. cbn [call].
  destruct (callback_of_cases env p callback Hcb)
    as [[-> ->]|[[_ [f ->]]|[-> ->]]].
  - by rewrite patch_protocol_id_run.
  - rewrite argsparser_callback_run.
    destruct (f _ v0); [done|]. apply (invalid_value_is_not_port_check (param_name p)).
  - destruct Hsafe as [Hgeth|]; [|done].
    unfold enforce_start_geth_used. rewrite Hgeth. by destruct v0.
Qed.

Lemma handle_parse_result_keeps_start_geth p params w params1 w1 b :
  p ≠ P_start_geth →
  params !! "start_geth" = Some (VBool b) →
  handle_parse_result env opts p params w = (Ok params1, w1) →
  params1 !! "start_geth" = Some (VBool b).
Proof.
  intros Hp Hgeth Hrun.
  destruct (handle_parse_result_ok env opts _ _ _ _ _ Hrun) as (value & -> & _).
  destruct (expose_value p); [|done].
  rewrite lookup_insert_ne; [done|].
  intros Heq. apply Hp. by apply param_name_inj.
Qed.

Lemma process_params_no_port_error l params w :
  P_start_geth ∉ l →
  params !! "start_geth" = Some (VBool true) →
  fst (process_params env opts l params w) ≠ Raise (UsageError start_geth_message).
Proof.
  revert params w. induction l as [|p l IH]; intros params w Hl Hgeth; [done|].
  apply not_elem_of_cons in Hl as [Hp Hl].
  cbn [process_params]. unfold bind.
  pose proof (handle_parse_result_no_port_error p params w (or_introl Hgeth)) as Hno.
  destruct (handle_parse_result env opts p params w) as [[params1|e] w1] eqn:Hrun.
  - apply IH; [done|].
    eapply handle_parse_result_keeps_start_geth; [|exact Hgeth|exact Hrun].
    by intros ->.
  - exact Hno.
Qed.

Lemma eager_phase_no_port_error l params w :
  Forall (λ p, is_eager p = true) l →
  fst (process_params env opts l params w) ≠ Raise (UsageError start_geth_message).
Proof.
  intros Hl. revert params w.
  induction Hl as [|p l Hp _ IH]; intros params w; [done|].
  cbn [process_params]. unfold bind.
  assert (p ≠ P_start_geth_port) as Hne by (by intros ->).
  pose proof (handle_parse_result_no_port_error p params w (or_intror Hne)) as Hno.
  destruct (handle_parse_result env opts p params w) as [[params1|e] w1]; [|done].
  apply IH.
Qed.

Lemma enforce_start_geth_used_value params v0 w value :
  fst (enforce_start_geth_used params v0 w) = Ok value → value = v0.
Proof.
  unfold enforce_start_geth_used.
  destruct v0; cbn; try (by intros [= <-]);
    destruct (params !! "start_geth") as [[| [] | | | | |]|]; cbn;
    by intros [= <-].
Qed.

(** The port reaches [start] as converted. *)
Lemma process_params_port l params w kw :
  NoDup l →
  P_start_geth_port ∈ l →
  fst (process_params env opts l params w) = Ok kw →
  ∃ value, process_value env P_start_geth_port (supplied opts P_start_geth_port)
           = Ok value
           ∧ kw !! "start_geth_port" = Some value.
Proof.
  revert params w. induction l as [|q l IH]; intros params w Hnd Hin Hkw.
  { by apply elem_of_nil in Hin. }
  apply NoDup_cons in Hnd as [Hq Hnd].
  destruct (process_params_step env opts _ _ _ _ _ Hkw)
    as (params1 & w1 & Hrun & Hrest).
  destruct (decide (q = P_start_geth_port)) as [->|Hne].
  - destruct (handle_parse_result_ok env opts _ _ _ _ _ Hrun)
      as (value & -> & _ & Hport).
    destruct (Hport eq_refl) as (v0 & Hv0 & Henf).
    apply enforce_start_geth_used_value in Henf as ->.
    exists v0. split; [exact Hv0|].
    change (kw !! param_name P_start_geth_port = Some v0).
    rewrite (process_params_other env opts _ _ _ _ P_start_geth_port Hq Hrest).
    apply lookup_insert_eq.
  - apply elem_of_cons in Hin as [Heq|Hin]; [congruence|].
    by apply (IH params1 w1).
Qed.
End PortAccepted.

(** X18.  [--start-geth] is eager, so the port check sees it wherever the
    two options stand on the command line: when both are given, the port an
    integer, a parse never raises the error of the port check, and a parse
    that succeeds hands [start] [start_geth=True] and the port. *)
Theorem port_accepted_with_start_geth env opts w s port :
  last (supplied opts P_start_geth) = Some (RFlag true) →
  last (supplied opts P_start_geth_port) = Some (RText s) →
  convert_int env s = Some port →
  fst (parse env opts w) ≠ Raise (UsageError start_geth_message)
  ∧ ∀ kw, fst (parse env opts w) = Ok kw →
          kw !! "start_geth" = Some (VBool true)
          ∧ kw !! "start_geth_port" = Some (VInt port).
Proof.
  intros Hgeth Hport Hconv. split.
  - unfold parse.
    pose proof (processing_order_NoDup (opts.*1)) as Hnd.
    destruct (processing_order_split (opts.*1))
      as (l1 & l2 & Heq & Hl1 & Hl2 & _ & Hin1 & _).
    rewrite Heq in Hnd |- *. apply NoDup_app in Hnd as (Hnd1 & Hdisj & _).
    rewrite process_params_app. unfold bind.
    pose proof (eager_phase_no_port_error env opts l1 ∅ w Hl1) as Hno1.
    destruct (process_params env opts l1 ∅ w) as [[params1|e] w1] eqn:Hrun1;
      [|exact Hno1].
    apply process_params_no_port_error; [by apply Hdisj|].
    destruct (process_params_plain env opts l1 ∅ w params1 P_start_geth
                Hnd1 Hin1 eq_refl eq_refl) as (v & Hv & Hlook).
    { by rewrite Hrun1. }
    cbn [process_value] in Hv. unfold flag_value in Hv. rewrite Hgeth in Hv.
    injection Hv as <-. exact Hlook.
  - intros kw Hkw. split.
    + destruct (parse_plain env opts w kw P_start_geth eq_refl eq_refl Hkw)
        as (v & Hv & Hlook).
      cbn [process_value] in Hv. unfold flag_value in Hv. rewrite Hgeth in Hv.
      injection Hv as <-. exact Hlook.
    + destruct (process_params_port env opts _ ∅ w kw
                  (processing_order_NoDup (opts.*1))
                  (processing_order_all _ P_start_geth_port) Hkw)
        as (v & Hv & Hlook).
      cbn [process_value] in Hv. unfold int_value in Hv.
      rewrite Hport, Hconv in Hv. injection Hv as <-. exact Hlook.
Qed.

Lemma port_accepted_with_start_geth_witness :
  (last (supplied port_before_geth_opts P_start_geth) = Some (RFlag true)
   ∧ last (supplied port_before_geth_opts P_start_geth_port) = Some (RText "30")
   ∧ convert_int sample_env "30" = Some 30%Z)
  ∧ fst (parse sample_env port_before_geth_opts (sample_world []))
    ≠ Raise (UsageError start_geth_message).
Proof.
  split; [repeat split|].
  exact (proj1 (port_accepted_with_start_geth sample_env port_before_geth_opts
                  (sample_world []) "30" 30%Z eq_refl eq_refl eq_refl)).
Defined.

(** Every run of [start] only appends to the record of calls. *)
Lemma prologue_events env a w :
  ∃ rest, trace (snd (start env a w)) = trace w ++ rest.
Proof.
  assert (emits (λ _, True) (start env a)) as Hem.
  { unfold start, start_dispatch, delete_reactor, pyinstaller_workarounds,
      resolve_config.
    apply emits_bind; [auto with emits | intros _].
    apply emits_bind; [auto 10 with emits | intros _].
    destruct (a_version a); [auto 10 with emits|].
    apply emits_bind; [auto 10 with emits | intros _].
    apply emits_bind; [auto 20 with emits | intros d].
    destruct (a_m a) as [m|]; [case_bool_decide|].
    - apply emits_bind; [auto with emits | intros _].
      apply emits_bind; [|auto with emits].
      eapply emits_weaken; [|apply start_crossbar_worker_emits]. done.
    - apply emits_bind; [|auto with emits].
      unfold start_node, log_golem_version, log_platform_info.
      auto 30 with emits.
    - apply emits_bind; [|auto with emits].
      unfold start_node, log_golem_version, log_platform_info.
      auto 30 with emits. }
  destruct (Hem w) as (rest & Hrest & _). by exists rest.
Qed.

(** ** From the command line to the mode *)

Section EndToEnd.
Variable env : Env.
Variable opts : list (Param * Raw).

Lemma main_after_parse w kw a :
  fst (parse env opts w) = Ok kw →
  kwargs_to_args kw = Some a →
  main env opts w = start env a (snd (parse env opts w)).
Proof.
  intros Hkw Ha. unfold main, bind at 1.
  destruct (parse env opts w) as [[kw'|e] w1]; [|done].
  cbn in Hkw. injection Hkw as ->. cbn [snd].
  unfold bind at 1. by rewrite Ha.
Qed.

Lemma parse_trace w :
  trace (snd (parse env opts w)) = trace w ++ events_of (parse env opts) w.
Proof.
  destruct (parse_emits env opts w) as (l & Hl & _).
  by rewrite (events_of_app _ _ _ Hl).
Qed.

(** The calls of the command are those of the parse followed by those of
    [start]. *)
Lemma events_of_main w kw a :
  fst (parse env opts w) = Ok kw →
  kwargs_to_args kw = Some a →
  events_of (main env opts) w
  = events_of (parse env opts) w
    ++ events_of (start env a) (snd (parse env opts w)).
Proof.
  intros Hkw Ha.
  assert (emits (λ _, True) (start env a)) as Hstart.
  { intros w1. exists (events_of (start env a) w1). split; [|by apply Forall_true].
    pose proof (prologue_events env a w1) as [rest Hrest].
    unfold events_of in *. by rewrite Hrest, drop_app_length. }
  destruct (Hstart (snd (parse env opts w))) as (l2 & Hl2 & _).
  rewrite (events_of_app _ _ _ Hl2).
  apply events_of_app. rewrite (main_after_parse _ _ _ Hkw Ha), Hl2, parse_trace.
  by rewrite app_assoc.
Qed.

Lemma parse_leaves_protocol_id w s id kw :
  last (supplied opts P_protocol_id) = Some (RText s) →
  convert_int env s = Some id →
  fst (parse env opts w) = Ok kw →
  protocol_id (snd (parse env opts w)) = id.
Proof.
  intros Hlast Hconv.
  assert (process_value env P_protocol_id (supplied opts P_protocol_id) = Ok (VInt id))
    as Hid.
  { cbn [process_value]. unfold int_value. by rewrite Hlast, Hconv. }
  unfold parse.
  destruct (processing_order_split (opts.*1))
    as (l1 & l2 & -> & Hl1 & Hl2 & Hin & _).
  destruct (eager_phase env opts l1 ∅ w id Hl1 Hid) as (evs1 & _ & _ & Hfin1).
  rewrite process_params_app. unfold bind.
  destruct (process_params env opts l1 ∅ w) as [[params1|e] w1]; cbn in *; [|done].
  assert (protocol_id w1 = id) as Hw1 by (apply Hfin1; [by eexists | by left]).
  destruct (lazy_phase env opts l2 params1 w1 Hl2) as (evs2 & _ & _ & Hfin2).
  intros _. by rewrite Hfin2.
Qed.
End EndToEnd.

Lemma kwargs_to_args_version kw a :
  kwargs_to_args kw = Some a → kw !! "version" = Some (VBool (a_version a)).
Proof.
  unfold kwargs_to_args. intros Ha.
  destruct (kw !! "version") as [[| b | | | | |]|] eqn:Hv;
    simplify_option_eq; done.
Qed.

Lemma kwargs_to_args_m kw a :
  kwargs_to_args kw = Some a →
  kw !! "m" = Some (match a_m a with Some s => VStr s | None => VNone end).
Proof.
  unfold kwargs_to_args. intros Ha.
  destruct (kw !! "m") as [[| | | s | | |]|] eqn:Hv;
    simplify_option_eq; done.
Qed.


Lemma late_line_parses :
  fst (parse sample_env late_protocol_id_opts (sample_world [])) = Ok late_kwargs.
Proof. apply parsed_or_empty_ok. vm_compute. reflexivity. Qed.

Lemma late_line_args : kwargs_to_args late_kwargs = Some late_args.
Proof. apply default_is_some. vm_compute. reflexivity. Qed.

Lemma version_line_kwargs_args : kwargs_to_args version_kwargs = Some version_line_args.
Proof. apply default_is_some. vm_compute. reflexivity. Qed.

Lemma worker_line_parses :
  fst (parse sample_env worker_line_opts (sample_world [])) = Ok worker_line_kwargs.
Proof. apply parsed_or_empty_ok. vm_compute. reflexivity. Qed.

Lemma worker_line_kwargs_args :
  kwargs_to_args worker_line_kwargs = Some worker_line_args.
Proof. apply default_is_some. vm_compute. reflexivity. Qed.

(** X19.  [--version] from the command line to the exit status: when the
    switch is given and the other options parse, the command prints the
    banner and returns 0; after the option callbacks its only calls are
    [freeze_support()] and the print. *)
Theorem version_flag_end_to_end env opts w kw a :
  last (supplied opts P_version) = Some (RFlag true) →
  fst (parse env opts w) = Ok kw →
  kwargs_to_args kw = Some a →
  fst (main env opts w) = Ok (VInt 0)
  ∧ exit_code (fst (main env opts w)) = 0%Z
  ∧ events_of (main env opts) w
    = events_of (parse env opts) w
      ++ [EFreezeSupport; EPrint ("GOLEM version: " +:+ golem_version env)].
Proof.
  intros Hgiven Hkw Ha.
  assert (a_version a = true) as Hv.
  { destruct (parse_plain env opts w kw P_version eq_refl eq_refl Hkw)
      as (v & Hv & Hlook).
    cbn [process_value] in Hv. unfold flag_value in Hv. rewrite Hgiven in Hv.
    injection Hv as <-.
    change (kw !! "version" = Some (VBool true)) in Hlook.
    rewrite (kwargs_to_args_version _ _ Ha) in Hlook. by injection Hlook. }
  rewrite (events_of_main env opts w kw a Hkw Ha).
  rewrite (main_after_parse env opts w kw a Hkw Ha).
  rewrite (start_version_run _ _ _ Hv).
  split; [done|]. split; [done|]. f_equal.
  eapply events_of_run; [by apply start_version_run | reflexivity].
Qed.

Lemma version_flag_end_to_end_witness :
  (last (supplied [(P_version, RFlag true)] P_version) = Some (RFlag true)
   ∧ fst (parse sample_env [(P_version, RFlag true)] (sample_world []))
     = Ok version_kwargs
   ∧ kwargs_to_args version_kwargs = Some version_line_args)
  ∧ fst (main sample_env [(P_version, RFlag true)] (sample_world [])) = Ok (VInt 0).
Proof.
  split.
  - split; [reflexivity|].
    split; [exact version_line_parses | exact version_line_kwargs_args].
  - exact (proj1 (version_flag_end_to_end sample_env [(P_version, RFlag true)]
                    (sample_world []) version_kwargs version_line_args eq_refl
                    version_line_parses version_line_kwargs_args)).
Defined.

(** X20.  The protocol id given on the command line is the one the
    diagnostics show: in a headless run of the command with
    [--protocol_id], the line [Protocol Version] is logged with the given
    integer, and the command returns. *)
Theorem protocol_line_shows_given_id env opts w s id kw a app_config :
  last (supplied opts P_protocol_id) = Some (RText s) →
  convert_int env s = Some id →
  fst (parse env opts w) = Ok kw →
  kwargs_to_args kw = Some a →
  a_version a = false →
  load_config env (a_datadir a) = Some app_config →
  a_m a ≠ Some worker_sentinel →
  fst (main env opts w) = Ok VNone
  ∧ ELogInfo "Protocol Version: %s" [VInt id] ∈ events_of (main env opts) w.
Proof.
  intros Hgiven Hconv Hkw Ha Hv Hload Hm.
  pose proof (parse_leaves_protocol_id env opts w s id kw Hgiven Hconv Hkw) as Hid.
  rewrite (events_of_main env opts w kw a Hkw Ha).
  rewrite (main_after_parse env opts w kw a Hkw Ha).
  rewrite (start_headless_run _ _ _ _ Hv Hload Hm).
  split; [done|].
  apply elem_of_app. right.
  erewrite events_of_run;
    [| by apply (start_headless_run env a _ app_config) | reflexivity].
  rewrite Hid. unfold resolve_events, start_node_events.
  cbn [app]. rewrite !elem_of_cons. do 7 right. left. reflexivity.
Qed.

Lemma protocol_line_shows_given_id_witness :
  (last (supplied late_protocol_id_opts P_protocol_id) = Some (RText "31")
   ∧ convert_int sample_env "31" = Some 31%Z
   ∧ fst (parse sample_env late_protocol_id_opts (sample_world [])) = Ok late_kwargs
   ∧ kwargs_to_args late_kwargs = Some late_args
   ∧ a_version late_args = false
   ∧ load_config sample_env (a_datadir late_args) = Some sample_config
   ∧ a_m late_args ≠ Some worker_sentinel)
  ∧ ELogInfo "Protocol Version: %s" [VInt 31]
    ∈ events_of (main sample_env late_protocol_id_opts) (sample_world []).
Proof.
  assert (a_version late_args = false) as Hv by (vm_compute; reflexivity).
  assert (load_config sample_env (a_datadir late_args) = Some sample_config) as Hload
    by (vm_compute; reflexivity).
  assert (a_m late_args ≠ Some worker_sentinel) as Hm.
  { assert (a_m late_args = None) as -> by (vm_compute; reflexivity). discriminate. }
  split.
  - split; [reflexivity|]. split; [reflexivity|].
    split; [exact late_line_parses|]. split; [exact late_line_args|].
    split; [exact Hv|]. split; [exact Hload | exact Hm].
  - exact (proj2 (protocol_line_shows_given_id sample_env late_protocol_id_opts
                    (sample_world []) "31" 31%Z late_kwargs late_args sample_config
                    eq_refl eq_refl late_line_parses late_line_args Hv Hload Hm)).
Defined.

Lemma decisions_callbacks l : Forall is_callback l → decisions l = [].
Proof.
  induction 1 as [|e l He _ IH]; [done|].
  change (decisions (e :: l))
    with (match terminal_action e with
          | Some d => d :: decisions l
          | None => decisions l
          end).
  rewrite IH. by destruct He as (p & id & ->).
Qed.

(** X21.  The mode of a run of the command is read off the command line:
    when the options parse and the store loads (or the version switch is
    on), the command enters exactly one mode, the one the dispatch table
    gives for the last [--version] switch and the last [-m] value of the
    command line, an absent switch being off and an absent [-m] none. *)
Theorem mode_from_command_line env opts w kw a :
  fst (parse env opts w) = Ok kw →
  kwargs_to_args kw = Some a →
  a_version a = true ∨ is_Some (load_config env (a_datadir a)) →
  decisions (events_of (main env opts) w)
  = [spec_dispatch (cli_version opts) (cli_m opts)].
Proof.
  intros Hkw Ha Hreach.
  assert (a_version a = cli_version opts) as Hversion.
  { destruct (parse_plain env opts w kw P_version eq_refl eq_refl Hkw)
      as (v & Hv & Hlook).
    change (kw !! "version" = Some v) in Hlook.
    rewrite (kwargs_to_args_version _ _ Ha) in Hlook. injection Hlook as <-.
    cbn [process_value] in Hv. unfold flag_value, cli_version in *.
    destruct (last (supplied opts P_version)) as [[b|s]|]; [| done |];
      congruence. }
  assert (a_m a = cli_m opts) as Hm.
  { destruct (parse_plain env opts w kw P_m eq_refl eq_refl Hkw)
      as (v & Hv & Hlook).
    change (kw !! "m" = Some v) in Hlook.
    rewrite (kwargs_to_args_m _ _ Ha) in Hlook. injection Hlook as <-.
    cbn [process_value] in Hv. unfold text_value, cli_m in *.
    destruct (last (supplied opts P_m)) as [[b|s]|]; [done | |];
      destruct (a_m a); congruence. }
  rewrite (events_of_main env opts w kw a Hkw Ha), decisions_app.
  rewrite (decisions_callbacks _ (emits_events_of _ _ w (parse_emits env opts))).
  rewrite (dispatch_when_reached env a _ Hreach), Hversion, Hm. reflexivity.
Qed.

Lemma mode_from_command_line_witness :
  (fst (parse sample_env worker_line_opts (sample_world [])) = Ok worker_line_kwargs
   ∧ kwargs_to_args worker_line_kwargs = Some worker_line_args
   ∧ (a_version worker_line_args = true
      ∨ is_Some (load_config sample_env (a_datadir worker_line_args))))
  ∧ decisions (events_of (main sample_env worker_line_opts) (sample_world []))
    = [DELEGATE_WORKER].
Proof.
  assert (is_Some (load_config sample_env (a_datadir worker_line_args))) as Hload.
  { exists sample_config. vm_compute. reflexivity. }
  split.
  - split; [exact worker_line_parses|].
    split; [exact worker_line_kwargs_args | right; exact Hload].
  - exact (mode_from_command_line sample_env worker_line_opts (sample_world [])
             worker_line_kwargs worker_line_args worker_line_parses
             worker_line_kwargs_args (or_intror Hload)).
Defined.

(** ** More on the worker branch *)

(** [start_crossbar_worker] stops at once on a vector without [-m]. *)
Lemma worker_without_m_stops env module w :
  "-m" ∉ sys_argv w →
  start_crossbar_worker env module w = (Raise ValueError, w).
Proof.
  intros Habsent. unfold start_crossbar_worker.
  unfold bind at 1. unfold gets at 1.
  unfold bind at 1. by rewrite (list_index_absent _ _ Habsent).
Qed.

(** X22.  A worker run whose argument vector holds no separate [-m] (the
    value was attached to the option, say) fails inside
    [start_crossbar_worker]: [start] raises ValueError after the
    configuration work, the argument vector is untouched and no module is
    imported. *)
Theorem worker_branch_without_m_in_argv env a w app_config :
  a_version a = false →
  a_m a = Some worker_sentinel →
  load_config env (a_datadir a) = Some app_config →
  "-m" ∉ sys_argv w →
  fst (start env a w) = Raise ValueError
  ∧ sys_argv (snd (start env a w)) = sys_argv w
  ∧ events_of (start env a) w
    = [EFreezeSupport; ENewConfigDesc; ELoadConfig (a_datadir a); EInitFromAppConfig;
       EStartCrossbarWorker worker_sentinel].
Proof.
  intros Hv Hm Hload Habsent.
  assert (start env a w =
            (Raise ValueError,
             set_modules (λ m, with_placeholders (delete reactor_module m))
               (record_all
                  (EFreezeSupport :: resolve_events a ++
                   [EStartCrossbarWorker worker_sentinel]) w))) as Hrun.
  { rewrite (start_worker_run _ _ _ _ Hv Hload Hm). unfold bind at 1.
    by rewrite worker_without_m_stops. }
  split; [by rewrite Hrun|]. split; [by rewrite Hrun|].
  eapply events_of_run; [exact Hrun | reflexivity].
Qed.

Lemma worker_branch_without_m_in_argv_witness :
  (a_version worker_args = false
   ∧ a_m worker_args = Some worker_sentinel
   ∧ load_config sample_env (a_datadir worker_args) = Some sample_config
   ∧ "-m" ∉ sys_argv (sample_world ["golemapp"; "-mcrossbar.worker.process"]))
  ∧ fst (start sample_env worker_args
           (sample_world ["golemapp"; "-mcrossbar.worker.process"]))
    = Raise ValueError.
Proof.
  assert ("-m" ∉ sys_argv (sample_world ["golemapp"; "-mcrossbar.worker.process"]))
    as Habsent.
  { cbn. rewrite !not_elem_of_cons. repeat split; [done..|]. apply not_elem_of_nil. }
  split; [repeat (split; [reflexivity|]); exact Habsent|].
  exact (proj1 (worker_branch_without_m_in_argv sample_env worker_args
                  (sample_world ["golemapp"; "-mcrossbar.worker.process"])
                  sample_config eq_refl eq_refl eq_refl Habsent)).
Defined.

Lemma list_remove_length x l l' :
  list_remove x l = Some l' → length l = S (length l').
Proof.
  revert l'. induction l as [|y l IH]; cbn [list_remove]; intros l'; [done|].
  destruct (decide (y = x)); [by intros [= <-]|].
  destruct (list_remove x l) as [l0|]; [|done].
  cbn. intros [= <-]. cbn. by rewrite (IH l0).
Qed.

(** X23.  How much shorter the argument vector gets: by two when no [-u]
    is left after [-m] and its value are removed, by three otherwise; never
    more, however many [-u] or further [-m] the vector holds. *)
Theorem worker_argv_length env module pre value post w :
  sys_argv w = pre ++ "-m" :: value :: post →
  "-m" ∉ pre →
  length (sys_argv w)
  = (length (sys_argv (snd (start_crossbar_worker env module w)))
     + (if bool_decide ("-u" ∈ pre ++ post) then 3 else 2))%nat.
Proof.
  intros Hargv Hpre.
  rewrite (start_crossbar_worker_argv env module pre value post w Hargv Hpre).
  rewrite (delegation_argv env module _).
  cbn [sys_argv set_argv]. rewrite Hargv.
  unfold without_first. rewrite !length_app. cbn [length].
  case_bool_decide as Hu.
  - destruct (list_remove_present _ _ Hu) as [l' Hl']. rewrite Hl'.
    cbn [default from_option id].
    apply list_remove_length in Hl'. rewrite length_app in Hl'. lia.
  - rewrite (list_remove_absent _ _ Hu). cbn [default from_option id].
    rewrite length_app. lia.
Qed.

Lemma worker_argv_length_witness :
  (sys_argv (sample_world ["golemapp"; "-m"; "w"; "-u"; "-u"])
   = ["golemapp"] ++ "-m" :: "w" :: ["-u"; "-u"]
   ∧ "-m" ∉ ["golemapp"])
  ∧ length (sys_argv (snd (start_crossbar_worker sample_env "w"
                             (sample_world ["golemapp"; "-m"; "w"; "-u"; "-u"]))))
    = 2%nat.
Proof.
  assert ("-m" ∉ ["golemapp"]) as Hpre.
  { rewrite not_elem_of_cons. split; [done | apply not_elem_of_nil]. }
  split; [split; [reflexivity | exact Hpre]|].
  pose proof (worker_argv_length sample_env "w" ["golemapp"] "w" ["-u"; "-u"]
                (sample_world ["golemapp"; "-m"; "w"; "-u"; "-u"]) eq_refl Hpre)
    as Hlen.
  rewrite bool_decide_eq_true_2 in Hlen.
  - cbn [sys_argv sample_world length] in Hlen. lia.
  - cbn [app]. rewrite !elem_of_cons. right. left. reflexivity.
Defined.
